(** * telegram-summary-bot: a shallow embedding of [bot.py]

    The bot keeps two module-level accumulators, [messages] (a list of
    display lines) and [word_counter] (a [collections.Counter]).  Inbound
    group messages are parsed by [extract_tweet_info]; [send_summary]
    composes the daily report, asks the OpenAI service for a digest,
    dispatches the report through the Telegram bot and clears both
    accumulators.

    Python [str] values are modelled as lists of Unicode code points, so
    that [str.split], [str.strip] and the [re] classes [\s], [\S], [\w] and
    [.] see the same characters as the interpreter does. *)

From Stdlib Require Import String Ascii.
From Stdlib Require Import List NArith ZArith Bool Arith Lia.
From Stdlib Require Decimal.
From Stdlib Require Import Permutation Sorted.
Import ListNotations.

Set Implicit Arguments.

(** ** Python strings *)

Module Py.

Definition char := N.
Definition str := list char.

(** UTF-8 decoding of a source literal into code points.  Only used to
    write the string constants of [bot.py] legibly. *)
Fixpoint utf8_go (s : string) (acc : N) (need : nat) : str :=
  match s with
  | EmptyString => []
  | String a s' =>
      let b := N_of_ascii a in
      match need with
      | O =>
          if (b <? 128)%N then b :: utf8_go s' 0%N 0
          else if (b <? 224)%N then utf8_go s' (b - 192)%N 1
          else if (b <? 240)%N then utf8_go s' (b - 224)%N 2
          else utf8_go s' (b - 240)%N 3
      | S O => (acc * 64 + (b - 128))%N :: utf8_go s' 0%N 0
      | S n => utf8_go s' (acc * 64 + (b - 128))%N n
      end
  end.

Definition u8 (s : string) : str := utf8_go s 0%N 0.

Definition eqb_str (a b : str) : bool :=
  if list_eq_dec N.eq_dec a b then true else false.

(** [Py_UNICODE_ISSPACE]: the code points [str.isspace], [str.split],
    [str.strip] and the regex class [\s] treat as whitespace. *)
Definition is_space (c : char) : bool :=
  ((9 <=? c) && (c <=? 13) || (28 <=? c) && (c <=? 32)
   || (c =? 133) || (c =? 160) || (c =? 5760)
   || (8192 <=? c) && (c <=? 8202)
   || (c =? 8232) || (c =? 8233) || (c =? 8239) || (c =? 8287)
   || (c =? 12288))%N.

Definition SP : char := 32%N.
Definition NL : char := 10%N.

(** [sep.join(parts)] *)
Fixpoint join (sep : str) (parts : list str) : str :=
  match parts with
  | [] => []
  | [p] => p
  | p :: rest => p ++ sep ++ join sep rest
  end.

(** [s.split()] with no argument: the maximal runs of non-whitespace
    characters, in order.  [cur] holds the current run, reversed. *)
Fixpoint split_go (cur : str) (s : str) : list str :=
  match s with
  | [] => match cur with [] => [] | _ => [rev cur] end
  | c :: s' =>
      if is_space c then
        match cur with
        | [] => split_go [] s'
        | _ => rev cur :: split_go [] s'
        end
      else split_go (c :: cur) s'
  end.

Definition split (s : str) : list str := split_go [] s.

(** [s.lstrip()], [s.strip()] *)
Fixpoint lstrip (s : str) : str :=
  match s with
  | c :: s' => if is_space c then lstrip s' else s
  | [] => []
  end.

Definition strip (s : str) : str := rev (lstrip (rev (lstrip s))).

(** Decimal rendering of a non-negative [int], as [f"{n}"] prints it. *)
Fixpoint digits (d : Decimal.uint) : str :=
  match d with
  | Decimal.Nil => []
  | Decimal.D0 r => 48%N :: digits r
  | Decimal.D1 r => 49%N :: digits r
  | Decimal.D2 r => 50%N :: digits r
  | Decimal.D3 r => 51%N :: digits r
  | Decimal.D4 r => 52%N :: digits r
  | Decimal.D5 r => 53%N :: digits r
  | Decimal.D6 r => 54%N :: digits r
  | Decimal.D7 r => 55%N :: digits r
  | Decimal.D8 r => 56%N :: digits r
  | Decimal.D9 r => 57%N :: digits r
  end.

Definition str_of_nat (n : nat) : str := digits (Nat.to_uint n).

End Py.

Import Py.

(** ** The fragment of [re] used by the bot

    A pattern is a sequence of nodes, each tagged with the capture group it
    belongs to.  The matcher is the backtracking search of [re]: a lazy
    repetition tries the shortest run first, a greedy one the longest, and
    [search] scans start positions from left to right.  A successful match
    is the list of substrings consumed by the nodes, in pattern order. *)

Module Re.

Inductive node :=
| Lit (c : char)                          (* a literal character *)
| Opt (c : char)                          (* [c?], greedy *)
| Plus (greedy : bool) (cls : char -> bool).   (* [cls+] or [cls+?] *)

Definition pattern := list (option nat * node).
Definition matched := list str.

Definition lit (k : str -> option matched) (c : char) (s : str) : option matched :=
  match s with
  | x :: s' => if (x =? c)%N then option_map (cons [x]) (k s') else None
  | [] => None
  end.

Fixpoint lazy_plus (cls : char -> bool) (k : str -> option matched)
    (acc : str) (s : str) : option matched :=
  match s with
  | x :: s' =>
      if cls x then
        match k s' with
        | Some r => Some (rev (x :: acc) :: r)
        | None => lazy_plus cls k (x :: acc) s'
        end
      else None
  | [] => None
  end.

Fixpoint greedy_plus (cls : char -> bool) (k : str -> option matched)
    (acc : str) (s : str) : option matched :=
  match s with
  | x :: s' =>
      if cls x then
        match greedy_plus cls k (x :: acc) s' with
        | Some r => Some r
        | None => option_map (cons (rev (x :: acc))) (k s')
        end
      else None
  | [] => None
  end.

(** Match the nodes at the beginning of the input. *)
Fixpoint match_here (ns : list node) : str -> option matched :=
  match ns with
  | [] => fun _ => Some []
  | n :: rest =>
      let k := match_here rest in
      match n with
      | Lit c => lit k c
      | Opt c => fun s =>
          match lit k c s with
          | Some r => Some r
          | None => option_map (cons []) (k s)
          end
      | Plus true cls => greedy_plus cls k []
      | Plus false cls => lazy_plus cls k []
      end
  end.

(** [re.search]: the first start position, from the left, with a match. *)
Fixpoint search_nodes (ns : list node) (s : str) : option matched :=
  match match_here ns s with
  | Some r => Some r
  | None => match s with [] => None | _ :: s' => search_nodes ns s' end
  end.

Definition search (p : pattern) (s : str) : option matched :=
  search_nodes (map snd p) s.

Definition in_group (g : nat) (tag : option nat) : bool :=
  match tag with Some g' => Nat.eqb g g' | None => false end.

(** [match.group(g)]: what the nodes of group [g] consumed. *)
Fixpoint group (p : pattern) (m : matched) (g : nat) : str :=
  match p, m with
  | (tag, _) :: p', w :: m' =>
      if in_group g tag then w ++ group p' m' g else group p' m' g
  | _, _ => []
  end.

Definition lits (tag : option nat) (s : str) : pattern :=
  map (fun c => (tag, Lit c)) s.

End Re.

(** ** Python values returned by the OpenAI client, exceptions, effects *)

(** The exceptions that can arise in the handlers.  All of them derive
    from [Exception], so [except Exception] catches each of them. *)
Inductive exn :=
| AttributeError | KeyError | IndexError | TypeError
| OpenAIError | TelegramError.

Inductive res (A : Type) :=
| Ret (a : A)
| Raise (e : exn).
Arguments Ret {A} a.
Arguments Raise {A} e.

#[local] Unset Elimination Schemes.
Inductive pyval :=
| PNone
| PInt (z : Z)
| PStr (s : str)
| PList (l : list pyval)
| PDict (d : list (str * pyval)).
#[local] Set Elimination Schemes.

(** [v[key]] for a string key *)
Definition getitem (v : pyval) (key : str) : res pyval :=
  match v with
  | PDict d =>
      match find (fun kv => eqb_str (fst kv) key) d with
      | Some kv => Ret (snd kv)
      | None => Raise KeyError
      end
  | _ => Raise TypeError
  end.

(** [v[0]] *)
Definition getitem0 (v : pyval) : res pyval :=
  match v with
  | PList (x :: _) => Ret x
  | PList [] => Raise IndexError
  | PStr (c :: _) => Ret (PStr [c])
  | PStr [] => Raise IndexError
  | PDict _ => Raise KeyError
  | _ => Raise TypeError
  end.

(** [v.strip()] *)
Definition strip_method (v : pyval) : res str :=
  match v with
  | PStr s => Ret (strip s)
  | _ => Raise AttributeError
  end.

(** ** [collections.Counter]

    A [Counter] is a [dict]: it keeps its keys in insertion order, and
    [most_common] breaks ties by that order.  It is therefore modelled as
    an association list. *)

Definition Counter := list (str * nat).

(** [wc[k]]; a missing key reads as 0 and is not inserted. *)
Fixpoint counter_get (wc : Counter) (k : str) : nat :=
  match wc with
  | [] => 0
  | (k', n) :: wc' => if eqb_str k' k then n else counter_get wc' k
  end.

(** [wc[k] = v]: in place for a present key, at the end for a new one. *)
Fixpoint counter_set (wc : Counter) (k : str) (v : nat) : Counter :=
  match wc with
  | [] => [(k, v)]
  | (k', n) :: wc' =>
      if eqb_str k' k then (k', v) :: wc' else (k', n) :: counter_set wc' k v
  end.

(** [wc[k] += 1] *)
Definition counter_incr (wc : Counter) (k : str) : Counter :=
  counter_set wc k (counter_get wc k + 1).

(** [sorted(items, key=itemgetter(1), reverse=True)]: Python's sort is
    stable, also when reversed, so equal counts keep their order. *)
Fixpoint insert_desc (x : str * nat) (l : list (str * nat)) : list (str * nat) :=
  match l with
  | [] => [x]
  | y :: l' => if snd y <=? snd x then x :: l else y :: insert_desc x l'
  end.

Fixpoint sorted_desc (l : list (str * nat)) : list (str * nat) :=
  match l with
  | [] => []
  | x :: l' => insert_desc x (sorted_desc l')
  end.

(** [wc.most_common(n)] is [heapq.nlargest(n, wc.items(), key=itemgetter(1))],
    which the library documents as
    [sorted(wc.items(), key=itemgetter(1), reverse=True)[:n]]. *)
Definition most_common (n : nat) (wc : Counter) : list (str * nat) :=
  firstn n (sorted_desc wc).

(** ** Process state and the effect monad

    The two module-level accumulators form the state.  A computation may
    mutate them, perform external calls (recorded in a trace) and raise;
    an exception leaves the state as it is at the point of the raise.
    Logging is not modelled.  Handlers are run one after the other, as
    the application does by default when it processes updates: a handler
    runs to its end before the next one starts. *)

Record state := mkState {
  messages : list str;
  word_counter : Counter
}.

Definition initial : state := mkState [] [].

Inductive event :=
| ChatCompletion (model system user : str)
| SendMessage (chat_id : Z) (text : str).

Definition M (A : Type) := state -> list event -> res A * state * list event.

Definition ret {A} (a : A) : M A := fun s t => (Ret a, s, t).
Definition raise {A} (e : exn) : M A := fun s t => (Raise e, s, t).
Definition bind {A B} (m : M A) (f : A -> M B) : M B :=
  fun s t =>
    match m s t with
    | (Ret a, s', t') => f a s' t'
    | (Raise e, s', t') => (Raise e, s', t')
    end.
Definition lift {A} (r : res A) : M A := fun s t => (r, s, t).

(** [try: m except Exception as e: h e] *)
Definition try_except {A} (m : M A) (h : exn -> M A) : M A :=
  fun s t =>
    match m s t with
    | (Ret a, s', t') => (Ret a, s', t')
    | (Raise e, s', t') => h e s' t'
    end.

Definition get_messages : M (list str) := fun s t => (Ret (messages s), s, t).
Definition get_word_counter : M Counter := fun s t => (Ret (word_counter s), s, t).
Definition set_messages (l : list str) : M unit :=
  fun s t => (Ret tt, mkState l (word_counter s), t).
Definition set_word_counter (wc : Counter) : M unit :=
  fun s t => (Ret tt, mkState (messages s) wc, t).
Definition emit (e : event) : M unit := fun s t => (Ret tt, s, t ++ [e]).

Declare Scope py_scope.
Delimit Scope py_scope with py.
Notation "x <- m ;; k" := (bind m (fun x => k))
  (at level 61, m at next level, right associativity) : py_scope.
Notation "m ;; k" := (bind m (fun _ => k))
  (at level 61, right associativity) : py_scope.
Open Scope py_scope.

(** What the outside world answers during one handler run: the OpenAI
    service, the clock, and the Telegram transport behind [context.bot]. *)
Definition Bot := Z -> str -> res unit.

Record world := mkWorld {
  ChatCompletion_create : str -> str -> str -> res pyval;
  today : str                       (* [datetime.now().strftime('%Y-%m-%d')] *)
}.

(** [logging], [Application] and the scheduler are outside the model; the
    scheduler's job calls [send_summary(None)], so a context may be
    [None]. *)
Definition context := option Bot.

(** [context.bot.send_message(chat_id=..., text=...)] *)
Definition send_message (ctx : context) (chat_id : Z) (text : str) : M unit :=
  match ctx with
  | None => raise AttributeError
  | Some bot => emit (SendMessage chat_id text) ;; lift (bot chat_id text)
  end.

(** Truth value of a list or string: non-empty. *)
Definition truthy {A} (l : list A) : bool :=
  match l with [] => false | _ => true end.

(** ** The bot *)

Section Program.

(** Configuration read from the environment at start-up, and the part of
    the Unicode database that [\w] consults beyond ASCII
    ([str.isalnum] on non-ASCII code points). *)
Variable GROUP_ID : Z.
Variable SUMMARY_CHAT_ID : Z.
Variable uni_alnum : char -> bool.

Definition ascii_alnum (c : char) : bool :=
  ((48 <=? c) && (c <=? 57) || (65 <=? c) && (c <=? 90)
   || (97 <=? c) && (c <=? 122))%N.

(** [\w]: alphanumeric or underscore *)
Definition is_word (c : char) : bool :=
  (if (c <? 128)%N then ascii_alnum c else uni_alnum c) || (c =? 95)%N.

(** [.] without [DOTALL]: anything but a newline *)
Definition is_dot (c : char) : bool := negb (c =? NL)%N.

(** [\S] *)
Definition is_nonspace (c : char) : bool := negb (is_space c).

(** [r"(.+?) (@\w+) - (https?://\S+)"] *)
Definition tweet_re : Re.pattern :=
  [(Some 1, Re.Plus false is_dot)] ++ Re.lits None (u8 " ")
  ++ Re.lits (Some 2) (u8 "@") ++ [(Some 2, Re.Plus true is_word)]
  ++ Re.lits None (u8 " - ")
  ++ Re.lits (Some 3) (u8 "http") ++ [(Some 3, Re.Opt 115%N)]
  ++ Re.lits (Some 3) (u8 "://") ++ [(Some 3, Re.Plus true is_nonspace)].

Definition summarize_content (content : str) : str :=
  let words := firstn 10 (split content) in
  join (u8 " ") words.

(** The pair [(None, None)] of the source is [None] here. *)
Definition extract_tweet_info (text : str) : option (str * str) :=
  match Re.search tweet_re text with
  | Some m =>
      let content := Re.group tweet_re m 1 in
      let username := Re.group tweet_re m 2 in
      let link := Re.group tweet_re m 3 in
      let summary := summarize_content content in
      Some (summary ++ u8 " — " ++ username ++ u8 " 🔗 (" ++ link ++ u8 ")",
            content)
  | None => None
  end.

Definition common_keywords : list str :=
  map u8 ["AI"; "比特幣"; "加密"; "ETH"; "BTC"; "Layer2"]%string.

Definition is_keyword (word : str) : bool :=
  existsb (eqb_str word) common_keywords.

(** The loop body and the loop of [update_word_counter], on the counter. *)
Definition count_word (wc : Counter) (word : str) : Counter :=
  if is_keyword word then counter_incr wc word else wc.

Definition count_words (wc : Counter) (content : str) : Counter :=
  fold_left count_word (split content) wc.

Definition update_word_counter (content : str) : M unit :=
  wc <- get_word_counter ;;
  set_word_counter (count_words wc content).

Definition handle_message (chat_id : Z) (text : str) : M unit :=
  if (chat_id =? GROUP_ID)%Z then
    match extract_tweet_info text with
    | Some (summary, content) =>
        if truthy summary then
          msgs <- get_messages ;;
          set_messages (msgs ++ [summary]) ;;
          update_word_counter content
        else ret tt
    | None => ret tt
    end
  else ret tt.

Definition system_prompt : str :=
  u8 "你是一個專業的新聞摘要助手，請用簡潔的語言概括當日內容。".
Definition user_prompt (text : str) : str :=
  u8 "請為以下內容生成一個 50 字內的簡短摘要：" ++ [NL] ++ text.
Definition fallback : str := u8 "（摘要生成失敗）".

Definition generate_summary (w : world) (text : str) : M str :=
  try_except
    (emit (ChatCompletion (u8 "gpt-4") system_prompt (user_prompt text)) ;;
     response <- lift (ChatCompletion_create w (u8 "gpt-4") system_prompt
                         (user_prompt text)) ;;
     choices <- lift (getitem response (u8 "choices")) ;;
     choice <- lift (getitem0 choices) ;;
     message <- lift (getitem choice (u8 "message")) ;;
     content <- lift (getitem message (u8 "content")) ;;
     summary <- lift (strip_method content) ;;
     ret summary)
    (fun _ => ret fallback).

(** [f"{i+1}. {msg}" for i, msg in enumerate(messages)] *)
Fixpoint numbered (i : nat) (msgs : list str) : list str :=
  match msgs with
  | [] => []
  | msg :: rest => (str_of_nat (i + 1) ++ u8 ". " ++ msg) :: numbered (S i) rest
  end.

Definition keyword_line (wc : Counter) : str :=
  join (u8 ", ")
    (map (fun wn => fst wn ++ u8 " 提到 " ++ str_of_nat (snd wn) ++ u8 " 次")
         (most_common 3 wc)).

Definition compose (date summary_text : str) (total_messages : nat)
    (most_common_words ai_summary : str) : str :=
  u8 "📢 " ++ date ++ u8 " 今日摘要" ++ [NL; NL]
  ++ summary_text ++ [NL; NL]
  ++ u8 "▬▬" ++ [NL; NL]
  ++ u8 "• 總共 " ++ str_of_nat total_messages ++ u8 " 則訊息，重複關鍵字為 "
  ++ most_common_words ++ [NL; NL]
  ++ u8 "📌 AI 總結: " ++ ai_summary.

Definition no_messages_notice : str := u8 "📢 今日無新訊息。".

Definition send_summary (w : world) (ctx : context) : M unit :=
  msgs <- get_messages ;;
  if truthy msgs then
    let summary_text := join [NL] (numbered 0 msgs) in
    ai_summary <- generate_summary w summary_text ;;
    let total_messages := length msgs in
    wc <- get_word_counter ;;
    let most_common_words := keyword_line wc in
    let summary_message :=
      compose (today w) summary_text total_messages most_common_words
        ai_summary in
    send_message ctx SUMMARY_CHAT_ID summary_message ;;
    set_messages [] ;;
    set_word_counter []
  else
    send_message ctx SUMMARY_CHAT_ID no_messages_notice.

(** [test_summary]: the manual [/testsummary] command. *)
Definition test_summary (w : world) (ctx : context) : M unit :=
  send_summary w ctx.

(** Running a handler from a state: outcome, final state, external calls. *)
Definition run {A} (m : M A) (s : state) : res A * state * list event :=
  m s [].
Definition outcome {A} (r : res A * state * list event) : res A := fst (fst r).
Definition final {A} (r : res A * state * list event) : state := snd (fst r).
Definition calls {A} (r : res A * state * list event) : list event := snd r.

(** The handlers the process runs, and the states it can be in. *)
Inductive input :=
| Inbound (chat_id : Z) (text : str)
| Report (w : world) (ctx : context).

Definition step (s : state) (i : input) : state :=
  match i with
  | Inbound chat_id text => final (run (handle_message chat_id text) s)
  | Report w ctx => final (run (send_summary w ctx) s)
  end.

Inductive reachable : state -> Prop :=
| reach_init : reachable initial
| reach_step s i : reachable s -> reachable (step s i).

End Program.

(** ** Notions used to state the properties *)

(** What one regex node may consume, and a match read declaratively. *)
Definition fits (n : Re.node) (w : str) : Prop :=
  match n with
  | Re.Lit c => w = [c]
  | Re.Opt c => w = [] \/ w = [c]
  | Re.Plus _ cls => w <> [] /\ forallb cls w = true
  end.

(** The text contains [<description> <@handle> - <url>]: a non-empty run
    of non-newline characters, a space, [@] and word characters, [ - ],
    and an [http://] or [https://] URL without whitespace. *)
Definition matches_tweet_pattern (uni_alnum : char -> bool) (text : str) : Prop :=
  exists pre description handle s url post,
    text = pre ++ description ++ u8 " " ++ (u8 "@" ++ handle) ++ u8 " - "
           ++ (u8 "http" ++ s ++ u8 "://" ++ url) ++ post
    /\ description <> [] /\ forallb is_dot description = true
    /\ handle <> [] /\ forallb (is_word uni_alnum) handle = true
    /\ (s = [] \/ s = u8 "s")
    /\ url <> [] /\ forallb is_nonspace url = true.

(** A description laid out as tokens: leading whitespace, then each token
    followed by a whitespace run that is non-empty unless the token is the
    last one. *)
Fixpoint spaced (items : list (str * str)) : str :=
  match items with
  | [] => []
  | (t, ws) :: rest => t ++ ws ++ spaced rest
  end.

Definition is_token (t : str) : Prop :=
  t <> [] /\ forallb is_nonspace t = true.

Fixpoint well_spaced (items : list (str * str)) : Prop :=
  match items with
  | [] => True
  | (t, ws) :: rest =>
      is_token t /\ forallb is_space ws = true
      /\ (rest <> [] -> ws <> []) /\ well_spaced rest
  end.

(** The result of the Summarizer call of [generate_summary]: the service
    answer and the extraction
    [response["choices"][0]["message"]["content"].strip()]. *)
Definition response_text (response : pyval) : res str :=
  match getitem response (u8 "choices") with
  | Raise e => Raise e
  | Ret choices =>
  match getitem0 choices with
  | Raise e => Raise e
  | Ret choice =>
  match getitem choice (u8 "message") with
  | Raise e => Raise e
  | Ret message =>
  match getitem message (u8 "content") with
  | Raise e => Raise e
  | Ret content => strip_method content
  end end end end.

Definition completion (w : world) (text : str) : res str :=
  match ChatCompletion_create w (u8 "gpt-4") system_prompt (user_prompt text) with
  | Raise e => Raise e
  | Ret response => response_text response
  end.

(** The pieces of one report run: the rendered digest body, the external
    Summarizer call made for a text, the AI summary line that results, and
    the report composed from a state. *)
Definition digest (s : state) : str := join [NL] (numbered 0 (messages s)).

Definition summarizer_call (text : str) : event :=
  ChatCompletion (u8 "gpt-4") system_prompt (user_prompt text).

Definition ai_summary_of (w : world) (text : str) : str :=
  match completion w text with
  | Ret summary => summary
  | Raise _ => fallback
  end.

Definition report (w : world) (s : state) : str :=
  compose (today w) (digest s) (length (messages s))
    (keyword_line (word_counter s)) (ai_summary_of w (digest s)).

(** The invariant of the accumulators. *)
Definition accumulators_ok (s : state) : Prop :=
  (forall k n, In (k, n) (word_counter s) -> 0 < n)
  /\ (messages s = [] -> word_counter s = []).

(** Tie-break by position in the vocabulary, as the specification words
    it: of two listed keywords with equal counts, the one registered
    earlier in [common_keywords] comes first. *)
Fixpoint index_of (k : str) (l : list str) : nat :=
  match l with
  | [] => 0
  | x :: l' => if eqb_str x k then 0 else S (index_of k l')
  end.

Definition ties_by_vocabulary (top : list (str * nat)) : Prop :=
  forall i j a b,
    i < j -> nth_error top i = Some a -> nth_error top j = Some b ->
    snd a = snd b ->
    index_of (fst a) common_keywords < index_of (fst b) common_keywords.

(** The order in which keywords first occur in a stream of tokens: a
    keyword not seen so far goes to the end of the list. *)
Definition first_seen (ks : list str) (w : str) : list str :=
  if is_keyword w && negb (existsb (fun k => eqb_str k w) ks)
  then ks ++ [w] else ks.

Definition str_eq_dec : forall a b : str, {a = b} + {a <> b} :=
  list_eq_dec N.eq_dec.

(** Counts in descending order. *)
Definition descending (l : list (str * nat)) : Prop :=
  StronglySorted (fun a b => snd b <= snd a) l.

(** The entries of a tally with a given count, in their order. *)
Definition with_count (c : nat) (l : list (str * nat)) : list (str * nat) :=
  filter (fun x => snd x =? c) l.

(** The display lines and the raw contents of a period's inbound
    messages, in arrival order. *)
Definition relevant (GROUP_ID : Z) (uni_alnum : char -> bool)
    (inbound : list (Z * str)) : list (str * str) :=
  flat_map (fun u =>
    if (fst u =? GROUP_ID)%Z then
      match extract_tweet_info uni_alnum (snd u) with
      | Some p => [p]
      | None => []
      end
    else []) inbound.

Definition handle_all (GROUP_ID : Z) (uni_alnum : char -> bool)
    (inbound : list (Z * str)) (s : state) : state :=
  fold_left (fun s u => final (run (handle_message GROUP_ID uni_alnum (fst u) (snd u)) s))
    inbound s.

(** Sample surroundings for concrete runs. *)
Definition ascii_only : char -> bool := fun _ => false.
Definition bot_ok : Bot := fun _ _ => Ret tt.
Definition bot_down : Bot := fun _ _ => Raise TelegramError.
Definition openai_down : world :=
  mkWorld (fun _ _ _ => Raise OpenAIError) (u8 "2025-01-01").
Definition openai_says (answer : str) : world :=
  mkWorld (fun _ _ _ =>
    Ret (PDict [(u8 "choices",
      PList [PDict [(u8 "message", PDict [(u8 "content", PStr answer)])]])]))
    (u8 "2025-01-01").
Definition openai_malformed : world :=
  mkWorld (fun _ _ _ => Ret (PDict [(u8 "choices", PList [])])) (u8 "2025-01-01").
Definition tweet : str :=
  u8 "Bitcoin is pumping @cryptoguy - https://x.com/abc".

(** ** Further notions: lines, traces, histories *)

(** A string without a newline character. *)
Definition single_line (s : str) : Prop := forallb is_dot s = true.

(** A string that does not begin with whitespace. *)
Definition starts_clean (s : str) : Prop :=
  match s with
  | [] => True
  | c :: _ => is_space c = false
  end.

(** The number of newline characters of a string. *)
Definition newlines (s : str) : nat := count_occ N.eq_dec s NL.

Definition is_send (e : event) : bool :=
  match e with SendMessage _ _ => true | ChatCompletion _ _ _ => false end.

Definition is_completion (e : event) : bool :=
  match e with ChatCompletion _ _ _ => true | SendMessage _ _ => false end.

(** A counter whose keys are distinct vocabulary keywords. *)
Definition counter_wf (wc : Counter) : Prop :=
  NoDup (map fst wc) /\ Forall (fun k => is_keyword k = true) (map fst wc).

(** A history of handler runs, the inbound messages among them, and the
    histories in which every report run is the scheduler's, started
    without a context. *)
Definition run_all (GROUP_ID SUMMARY_CHAT_ID : Z) (uni_alnum : char -> bool)
    (history : list input) (s : state) : state :=
  fold_left (step GROUP_ID SUMMARY_CHAT_ID uni_alnum) history s.

Definition inbound_of (history : list input) : list (Z * str) :=
  flat_map (fun i =>
    match i with
    | Inbound chat_id text => [(chat_id, text)]
    | Report _ _ => []
    end) history.

Definition scheduled_only (i : input) : bool :=
  match i with
  | Inbound _ _ => true
  | Report _ None => true
  | Report _ (Some _) => false
  end.

(** A string that is empty or begins with a character outside a class:
    where a greedy repetition of the class has to stop. *)
Definition stops_at (cls : char -> bool) (post : str) : Prop :=
  match post with
  | [] => True
  | c :: _ => cls c = false
  end.

(** The regex nodes before the final [\S+]. *)
Definition tweet_init (uni_alnum : char -> bool) : list Re.node :=
  removelast (map snd (tweet_re uni_alnum)).

(** The part of an update that [handle_message] reads.  [update.message]
    is [None] for an update that carries no new message, such as an
    edited message or a channel post, and a message may lack a sender.
    The handler is registered behind the [TEXT] filter, so the text of a
    message it receives is a string.  The sender's names only feed the
    log line. *)
Record User := mkUser {
  user_username : option str;
  user_first_name : str
}.

Record Message := mkMessage {
  msg_text : str;
  msg_from_user : option User;
  msg_chat_id : Z
}.

Record Update := mkUpdate {
  upd_message : option Message
}.

(** [handle_message(update, context)] from its first line: the reads of
    [update.message.text], [update.message.from_user.username] and
    [update.message.chat_id], each an [AttributeError] on [None], and then
    the body. *)
Definition handle_update (GROUP_ID : Z) (uni_alnum : char -> bool)
    (update : Update) : M unit :=
  match upd_message update with
  | None => raise AttributeError
  | Some m =>
      let text := msg_text m in
      match msg_from_user m with
      | None => raise AttributeError
      | Some _ =>
          let chat_id := msg_chat_id m in
          handle_message GROUP_ID uni_alnum chat_id text
      end
  end.

(** The regex nodes after the description group. *)
Definition tweet_tail (uni_alnum : char -> bool) : list Re.node :=
  tl (map snd (tweet_re uni_alnum)).

(** * Properties *)

(** ** Concrete runs of the string functions *)

Example u8_dash : u8 " — " = [32; 8212; 32]%N.
Proof. reflexivity. Qed.

Example u8_link : u8 "🔗" = [128279]%N.
Proof. reflexivity. Qed.

Example split_example :
  split (u8 "  BTC to the  moon BTC ") = map u8 ["BTC"; "to"; "the"; "moon"; "BTC"]%string.
Proof. reflexivity. Qed.

Example split_ideographic_space : split [65; 12288; 66]%N = [[65]; [66]]%N.
Proof. reflexivity. Qed.

Example str_of_nat_example : str_of_nat 120 = u8 "120" /\ str_of_nat 0 = u8 "0".
Proof. split; reflexivity. Qed.

(** ** Strings: equality, [split], [join] *)

Lemma eqb_str_true a b : eqb_str a b = true <-> a = b.
Proof.
  unfold eqb_str. destruct (list_eq_dec N.eq_dec a b); split; congruence.
Qed.

Lemma eqb_str_false a b : eqb_str a b = false <-> a <> b.
Proof.
  unfold eqb_str. destruct (list_eq_dec N.eq_dec a b); split; congruence.
Qed.

Lemma eqb_str_refl a : eqb_str a a = true.
Proof. now apply eqb_str_true. Qed.

Lemma eqb_str_sym a b : eqb_str a b = eqb_str b a.
Proof.
  destruct (eqb_str b a) eqn:E.
  - apply eqb_str_true in E. subst. apply eqb_str_refl.
  - apply eqb_str_false in E. apply eqb_str_false. congruence.
Qed.

Section SplitFacts.

(** A run of non-whitespace characters is pushed onto the current token. *)
Lemma split_go_token t : forall cur rest,
  forallb is_nonspace t = true ->
  split_go cur (t ++ rest) = split_go (rev t ++ cur) rest.
Proof.
  induction t as [|c t IH]; intros cur rest H; simpl in *.
  - reflexivity.
  - apply andb_prop in H as [Hc Ht]. unfold is_nonspace in Hc.
    apply negb_true_iff in Hc. rewrite Hc, IH by assumption.
    now rewrite <- app_assoc.
Qed.

(** Whitespace between tokens is skipped. *)
Lemma split_go_space ws : forall rest,
  forallb is_space ws = true ->
  split_go [] (ws ++ rest) = split_go [] rest.
Proof.
  induction ws as [|c ws IH]; intros rest H; simpl in *.
  - reflexivity.
  - apply andb_prop in H as [Hc Hws]. now rewrite Hc, IH.
Qed.

Lemma split_token_space t ws rest :
  is_token t -> forallb is_space ws = true -> ws <> [] ->
  split (t ++ ws ++ rest) = t :: split rest.
Proof.
  intros [Hne Ht] Hws Hwne. unfold split.
  rewrite split_go_token by assumption. rewrite app_nil_r.
  destruct ws as [|c ws]; [congruence|]. simpl in *.
  apply andb_prop in Hws as [Hc Hws]. rewrite Hc.
  destruct (rev t) eqn:E.
  - apply (f_equal (@rev _)) in E. rewrite rev_involutive in E. now subst.
  - rewrite <- E, rev_involutive. f_equal. now apply split_go_space.
Qed.

Lemma split_last_token t ws :
  is_token t -> forallb is_space ws = true -> split (t ++ ws) = [t].
Proof.
  intros Ht Hws. destruct ws as [|c ws].
  - destruct Ht as [Hne Ht]. unfold split.
    rewrite split_go_token by assumption. rewrite app_nil_r. simpl.
    destruct (rev t) eqn:E.
    + apply (f_equal (@rev _)) in E. rewrite rev_involutive in E. now subst.
    + rewrite <- E. now rewrite rev_involutive.
  - rewrite <- (app_nil_r (c :: ws)), split_token_space;
      [reflexivity | assumption | assumption | discriminate].
Qed.

(** [split] recovers exactly the tokens of a laid-out string. *)
Lemma split_spaced items : forall lead,
  forallb is_space lead = true -> well_spaced items ->
  split (lead ++ spaced items) = map fst items.
Proof.
  intros lead Hl. unfold split. rewrite split_go_space by assumption.
  fold (split (spaced items)).
  induction items as [|[t ws] rest IH]; intros H; simpl in *.
  - reflexivity.
  - destruct H as (Ht & Hws & Hne & Hrest).
    destruct rest as [|i rest].
    + simpl. rewrite app_nil_r. now apply split_last_token.
    + rewrite split_token_space; auto; [|apply Hne; discriminate].
      f_equal. now apply IH.
Qed.

(** Every string has such a layout. *)
Lemma layout_exists (d : str) :
  exists lead items,
    d = lead ++ spaced items /\ forallb is_space lead = true /\ well_spaced items.
Proof.
  induction d as [|c d (lead & items & Hd & Hl & Hw)].
  - exists [], []. simpl. auto.
  - destruct (is_space c) eqn:Hc.
    + exists (c :: lead), items. simpl. rewrite Hc. subst. auto.
    + assert (Htok : is_token [c]).
      { split; [discriminate|]. simpl. unfold is_nonspace. now rewrite Hc. }
      destruct lead as [|l lead].
      * destruct items as [|[t ws] rest].
        -- exists [], [([c], [])]. simpl in *. subst.
           repeat split; auto; try apply Htok; congruence.
        -- exists [], ((c :: t, ws) :: rest). simpl in *. subst.
           destruct Hw as ((Hne & Ht) & Hws & Hr & Hrest).
           repeat split; auto; try discriminate.
           simpl. unfold is_nonspace at 1. now rewrite Hc.
      * exists [], (([c], l :: lead) :: items). simpl in *. subst.
        repeat split; auto; try apply Htok; discriminate.
Qed.

(** Tokens joined by single spaces form a layout. *)
Lemma join_space_spaced ts :
  Forall is_token ts ->
  exists items,
    join (u8 " ") ts = spaced items /\ well_spaced items /\ map fst items = ts.
Proof.
  induction 1 as [|t ts Ht Hts (items & Hj & Hw & Hm)].
  - exists []. simpl. auto.
  - destruct ts as [|t' ts].
    + exists [(t, [])]. simpl. rewrite app_nil_r. repeat split; auto; try apply Ht; congruence.
    + exists ((t, u8 " ") :: items). simpl in *. rewrite <- Hj.
      repeat split; auto; try apply Ht; try discriminate. now rewrite Hm.
Qed.

Lemma split_go_tokens s : forall cur,
  forallb is_nonspace cur = true ->
  Forall is_token (split_go cur s).
Proof.
  induction s as [|c s IH]; intros cur Hcur; simpl.
  - destruct cur as [|x cur]; constructor; [|constructor].
    split.
    + intro E. apply (f_equal (@length _)) in E. rewrite length_rev in E. discriminate.
    + rewrite forallb_forall in *. intros y Hy. apply Hcur. now apply in_rev.
  - destruct (is_space c) eqn:Hc.
    + destruct cur as [|x cur]; [now apply IH|].
      constructor; [|now apply IH].
      split.
      * intro E. apply (f_equal (@length _)) in E. rewrite length_rev in E. discriminate.
      * rewrite forallb_forall in *. intros y Hy. apply Hcur. now apply in_rev.
    + apply IH. simpl. unfold is_nonspace at 1. now rewrite Hc.
Qed.

Lemma split_tokens s : Forall is_token (split s).
Proof. now apply split_go_tokens. Qed.

End SplitFacts.

(** ** The backtracking matcher against the declarative reading *)

Section Repetition.

Variable cls : char -> bool.
Variable k : str -> option Re.matched.

Lemma lazy_plus_sound s : forall acc m,
  Re.lazy_plus cls k acc s = Some m ->
  exists w post r,
    w <> [] /\ forallb cls w = true /\ s = w ++ post
    /\ k post = Some r /\ m = (rev acc ++ w) :: r.
Proof.
  induction s as [|x s IH]; intros acc m H; simpl in H; [discriminate|].
  destruct (cls x) eqn:Hx; [|discriminate].
  destruct (k s) as [r|] eqn:Hk.
  - injection H as <-. exists [x], s, r. simpl. rewrite Hx.
    repeat split; auto; discriminate.
  - apply IH in H as (w & post & r & Hne & Hw & -> & Hp & ->).
    exists (x :: w), post, r. simpl. rewrite Hx, Hw, <- app_assoc.
    repeat split; auto; discriminate.
Qed.

Lemma lazy_plus_complete w : forall post acc,
  w <> [] -> forallb cls w = true -> k post <> None ->
  Re.lazy_plus cls k acc (w ++ post) <> None.
Proof.
  induction w as [|x w IH]; intros post acc Hne Hw Hk; [congruence|].
  simpl in *. apply andb_prop in Hw as [Hx Hw]. rewrite Hx.
  destruct (k (w ++ post)) eqn:E; [discriminate|].
  destruct w as [|y w]; [simpl in E; congruence|].
  apply IH; auto; discriminate.
Qed.

Lemma greedy_plus_sound s : forall acc m,
  Re.greedy_plus cls k acc s = Some m ->
  exists w post r,
    w <> [] /\ forallb cls w = true /\ s = w ++ post
    /\ k post = Some r /\ m = (rev acc ++ w) :: r.
Proof.
  induction s as [|x s IH]; intros acc m H; simpl in H; [discriminate|].
  destruct (cls x) eqn:Hx; [|discriminate].
  destruct (Re.greedy_plus cls k (x :: acc) s) as [m'|] eqn:Hg.
  - injection H as <-.
    apply IH in Hg as (w & post & r & Hne & Hw & -> & Hp & ->).
    exists (x :: w), post, r. simpl. rewrite Hx, Hw, <- app_assoc.
    repeat split; auto; discriminate.
  - destruct (k s) as [r|] eqn:Hk; [|discriminate]. injection H as <-.
    exists [x], s, r. simpl. rewrite Hx. repeat split; auto; discriminate.
Qed.

Lemma greedy_plus_complete w : forall post acc,
  w <> [] -> forallb cls w = true -> k post <> None ->
  Re.greedy_plus cls k acc (w ++ post) <> None.
Proof.
  induction w as [|x w IH]; intros post acc Hne Hw Hk; [congruence|].
  simpl in *. apply andb_prop in Hw as [Hx Hw]. rewrite Hx.
  destruct (Re.greedy_plus cls k (x :: acc) (w ++ post)) eqn:E; [discriminate|].
  destruct w as [|y w].
  - simpl. destruct (k post); [discriminate|congruence].
  - exfalso. revert E. apply IH; auto; discriminate.
Qed.

Lemma lit_sound c s m :
  Re.lit k c s = Some m ->
  exists post r, s = c :: post /\ k post = Some r /\ m = [c] :: r.
Proof.
  destruct s as [|x s]; simpl; [discriminate|].
  destruct (N.eqb_spec x c); [|discriminate]. subst.
  destruct (k s) as [r|] eqn:Hk; simpl; [|discriminate].
  intros [= <-]. eauto.
Qed.

Lemma lit_complete c post :
  k post <> None -> Re.lit k c (c :: post) <> None.
Proof.
  simpl. rewrite N.eqb_refl. destruct (k post); simpl; congruence.
Qed.

End Repetition.

Lemma match_here_sound ns : forall s m,
  Re.match_here ns s = Some m ->
  Forall2 fits ns m /\ exists post, s = concat m ++ post.
Proof.
  induction ns as [|n ns IH]; intros s m H; simpl in H.
  - injection H as <-. split; [constructor|]. now exists s.
  - destruct n as [c|c|[|] cls].
    + apply lit_sound in H as (post & r & -> & Hk & ->).
      apply IH in Hk as (Hf & post' & ->).
      split; [constructor; simpl; auto|]. now exists post'.
    + destruct (Re.lit (Re.match_here ns) c s) as [m'|] eqn:Hl.
      * injection H as <-.
        apply lit_sound in Hl as (post & r & -> & Hk & ->).
        apply IH in Hk as (Hf & post' & ->).
        split; [constructor; simpl; auto|]. now exists post'.
      * destruct (Re.match_here ns s) as [r|] eqn:Hk; simpl in H; [|discriminate].
        injection H as <-. apply IH in Hk as (Hf & post' & ->).
        split; [constructor; simpl; auto|]. now exists post'.
    + apply greedy_plus_sound in H as (w & post & r & Hne & Hw & -> & Hk & ->).
      apply IH in Hk as (Hf & post' & ->).
      split; [constructor; simpl; auto|]. exists post'. simpl. now rewrite <- app_assoc.
    + apply lazy_plus_sound in H as (w & post & r & Hne & Hw & -> & Hk & ->).
      apply IH in Hk as (Hf & post' & ->).
      split; [constructor; simpl; auto|]. exists post'. simpl. now rewrite <- app_assoc.
Qed.

Lemma match_here_complete ns : forall m post,
  Forall2 fits ns m -> Re.match_here ns (concat m ++ post) <> None.
Proof.
  induction ns as [|n ns IH]; intros m post H; inversion H as [|? w ? r Hw Hr]; subst.
  - discriminate.
  - simpl concat. rewrite <- app_assoc. specialize (IH r post Hr).
    destruct n as [c|c|[|] cls]; simpl in Hw |- *.
    + subst. now apply lit_complete.
    + destruct Hw as [-> | ->].
      * simpl. destruct (Re.lit _ c _); [discriminate|].
        destruct (Re.match_here ns _); simpl; congruence.
      * pose proof (@lit_complete (Re.match_here ns) c _ IH) as Hl. simpl in Hl |- *.
        destruct (if (c =? c)%N then _ else _); congruence.
    + destruct Hw. now apply greedy_plus_complete.
    + destruct Hw. now apply lazy_plus_complete.
Qed.

Lemma search_nodes_sound ns s : forall m,
  Re.search_nodes ns s = Some m ->
  Forall2 fits ns m /\ exists pre post, s = pre ++ concat m ++ post.
Proof.
  induction s as [|x s IH]; intros m H; simpl in H.
  - destruct (Re.match_here ns []) eqn:E; [|discriminate]. injection H as <-.
    apply match_here_sound in E as (Hf & post & E). split; auto. now exists [], post.
  - destruct (Re.match_here ns (x :: s)) eqn:E.
    + injection H as <-. apply match_here_sound in E as (Hf & post & E).
      split; auto. now exists [], post.
    + apply IH in H as (Hf & pre & post & ->). split; auto. now exists (x :: pre), post.
Qed.

Lemma search_nodes_complete ns m post pre :
  Forall2 fits ns m -> Re.search_nodes ns (pre ++ concat m ++ post) <> None.
Proof.
  intros H. induction pre as [|x pre IH]; simpl.
  - pose proof (match_here_complete post H) as Hm.
    destruct (concat m ++ post); simpl;
      destruct (Re.match_here ns _); congruence.
  - destruct (Re.match_here ns (x :: _)); [discriminate|assumption].
Qed.

(** ** [extract_tweet_info] *)

(** Normal form of concatenations of literals and variables. *)
Ltac list_norm :=
  repeat first [rewrite <- app_assoc | rewrite app_nil_r | progress cbn].
Ltac list_norm_in H :=
  repeat first [rewrite <- app_assoc in H | rewrite app_nil_r in H | progress (cbn in H)].

Section Extractor.

Variable uni_alnum : char -> bool.

(** The shape of every match of [tweet_re]. *)
Lemma search_tweet_shape text m :
  Re.search (tweet_re uni_alnum) text = Some m ->
  exists pre description handle s url post,
    m = [description; [32]; [64]; handle; [32]; [45]; [32];
         [104]; [116]; [116]; [112]; s; [58]; [47]; [47]; url]%N
    /\ text = pre ++ description ++ u8 " " ++ (u8 "@" ++ handle) ++ u8 " - "
              ++ (u8 "http" ++ s ++ u8 "://" ++ url) ++ post
    /\ description <> [] /\ forallb is_dot description = true
    /\ handle <> [] /\ forallb (is_word uni_alnum) handle = true
    /\ (s = [] \/ s = u8 "s")
    /\ url <> [] /\ forallb is_nonspace url = true.
Proof.
  unfold Re.search. intros H.
  apply search_nodes_sound in H as (Hf & pre & post & ->).
  cbn in Hf.
  repeat match goal with
         | H : Forall2 _ (_ :: _) _ |- _ => inversion H; clear H; subst
         | H : Forall2 _ [] _ |- _ => inversion H; clear H; subst
         end.
  cbn in *.
  repeat match goal with H : _ /\ _ |- _ => destruct H end. subst.
  match goal with
  | Hs : ?s = [] \/ ?s = _ |- context [ [_; _; _; ?h; _; _; _; _; _; _; _; ?s; _; _; _; ?u] ] =>
      match goal with
      | |- context [ ?d :: [32%N] :: _ ] =>
          exists pre, d, h, s, u, post
      end
  end.
  repeat split; auto.
  list_norm. reflexivity.
Qed.

Lemma search_tweet_found pre description handle s url post :
  description <> [] -> forallb is_dot description = true ->
  handle <> [] -> forallb (is_word uni_alnum) handle = true ->
  (s = [] \/ s = u8 "s") ->
  url <> [] -> forallb is_nonspace url = true ->
  Re.search (tweet_re uni_alnum)
    (pre ++ description ++ u8 " " ++ (u8 "@" ++ handle) ++ u8 " - "
     ++ (u8 "http" ++ s ++ u8 "://" ++ url) ++ post) <> None.
Proof.
  intros Hd1 Hd2 Hh1 Hh2 Hs Hu1 Hu2. unfold Re.search.
  pose (m := [description; [32]; [64]; handle; [32]; [45]; [32];
              [104]; [116]; [116]; [112]; s; [58]; [47]; [47]; url]%N).
  assert (Hf : Forall2 fits (map snd (tweet_re uni_alnum)) m).
  { cbn. repeat first [apply Forall2_cons | apply Forall2_nil]; cbn; auto. }
  pose proof (@search_nodes_complete _ m post pre Hf) as Hc.
  list_norm_in Hc. list_norm. exact Hc.
Qed.

(** The extractor misses exactly the texts without the pattern. *)
Lemma extract_none_iff text :
  extract_tweet_info uni_alnum text = None
  <-> ~ matches_tweet_pattern uni_alnum text.
Proof.
  unfold extract_tweet_info. split.
  - intros H (pre & d & h & s & u & post & -> & Hd1 & Hd2 & Hh1 & Hh2 & Hs & Hu1 & Hu2).
    pose proof (@search_tweet_found pre d h s u post Hd1 Hd2 Hh1 Hh2 Hs Hu1 Hu2) as Hn.
    destruct (Re.search _ _); [discriminate|congruence].
  - intros Hn. destruct (Re.search _ text) as [m|] eqn:E; [|reflexivity].
    exfalso. apply Hn.
    apply search_tweet_shape in E as (pre & d & h & s & u & post & _ & H).
    now exists pre, d, h, s, u, post.
Qed.

(** What the extractor returns on a hit. *)
Lemma extract_some text display content :
  extract_tweet_info uni_alnum text = Some (display, content) ->
  exists pre handle s url post,
    text = pre ++ content ++ u8 " " ++ (u8 "@" ++ handle) ++ u8 " - "
           ++ (u8 "http" ++ s ++ u8 "://" ++ url) ++ post
    /\ content <> [] /\ forallb is_dot content = true
    /\ display = summarize_content content ++ u8 " — " ++ (u8 "@" ++ handle)
                 ++ u8 " 🔗 (" ++ (u8 "http" ++ s ++ u8 "://" ++ url) ++ u8 ")".
Proof.
  unfold extract_tweet_info. intros H.
  destruct (Re.search _ text) as [m|] eqn:E; [|discriminate].
  apply search_tweet_shape in E
    as (pre & d & h & s & u & post & -> & -> & Hd1 & Hd2 & _).
  cbn in H. repeat rewrite app_nil_r in H. injection H as <- <-.
  exists pre, h, s, u, post. repeat split; auto.
Qed.

Lemma extract_display_nonempty text display content :
  extract_tweet_info uni_alnum text = Some (display, content) ->
  truthy display = true.
Proof.
  intros H. apply extract_some in H as (pre & h & s & u & post & _ & _ & _ & ->).
  destruct (summarize_content content); reflexivity.
Qed.

End Extractor.

Example extract_takes_the_shortest_description :
  extract_tweet_info ascii_only (u8 "x @a_b-c @d - https://y z")
  = Some (u8 "x @a_b-c — @d 🔗 (https://y)", u8 "x @a_b-c").
Proof. vm_compute. reflexivity. Qed.

Example extract_searches_inside_the_text :
  extract_tweet_info ascii_only
    ([NL] ++ u8 "gm @bob - http://t.co/1 and more")
  = Some (u8 "gm — @bob 🔗 (http://t.co/1)", u8 "gm").
Proof. vm_compute. reflexivity. Qed.

(** C7: on the literal input
    ["Bitcoin is pumping @cryptoguy - https://x.com/abc"] the extractor
    returns the display line
    ["Bitcoin is pumping — @cryptoguy 🔗 (https://x.com/abc)"] and the raw
    content ["Bitcoin is pumping"]; and on every text that does not
    contain the pattern [<description> <@handle> - <url>] it returns
    nothing.  This holds whatever the Unicode tables say about non-ASCII
    word characters. *)
Theorem C7_extract_literal_and_miss (uni_alnum : char -> bool) :
  extract_tweet_info uni_alnum
    (u8 "Bitcoin is pumping @cryptoguy - https://x.com/abc")
  = Some (u8 "Bitcoin is pumping — @cryptoguy 🔗 (https://x.com/abc)",
          u8 "Bitcoin is pumping")
  /\ forall text,
       ~ matches_tweet_pattern uni_alnum text ->
       extract_tweet_info uni_alnum text = None.
Proof.
  split.
  - vm_compute. reflexivity.
  - intros text H. now apply extract_none_iff.
Qed.

Lemma C7_witness :
  ~ matches_tweet_pattern ascii_only (u8 "hello world")
  /\ extract_tweet_info ascii_only (u8 "hello world") = None.
Proof.
  assert (H : ~ matches_tweet_pattern ascii_only (u8 "hello world")).
  { apply extract_none_iff. vm_compute. reflexivity. }
  split; [exact H|].
  apply (proj2 (C7_extract_literal_and_miss ascii_only)). exact H.
Defined.

(** ** [summarize_content] *)

(** C8, as the code has it: a description is some leading whitespace
    followed by tokens, each followed by a run of whitespace; its title is
    the first 10 tokens joined by single spaces.  With more than 10 tokens
    that is exactly 10 tokens; with at most 10 it is all tokens joined by
    single spaces, which is the description itself exactly when the
    description is already its tokens joined by single spaces. *)
Theorem C8_title_is_first_ten_tokens_joined (d : str) :
  exists lead items,
    d = lead ++ spaced items
    /\ forallb is_space lead = true /\ well_spaced items
    /\ split d = map fst items
    /\ summarize_content d = join (u8 " ") (firstn 10 (map fst items))
    /\ (10 < length items -> length (firstn 10 (map fst items)) = 10)
    /\ (length items <= 10 ->
        summarize_content d = join (u8 " ") (map fst items))
    /\ (length items <= 10 ->
        (summarize_content d = d <-> d = join (u8 " ") (map fst items))).
Proof.
  destruct (layout_exists d) as (lead & items & Hd & Hl & Hw).
  exists lead, items.
  assert (Hs : split d = map fst items) by (subst; now apply split_spaced).
  assert (Ht : summarize_content d = join (u8 " ") (firstn 10 (map fst items))).
  { unfold summarize_content. now rewrite Hs. }
  assert (Hle : length items <= 10 ->
                summarize_content d = join (u8 " ") (map fst items)).
  { intros Hn. rewrite Ht, firstn_all2; [reflexivity|]. now rewrite length_map. }
  repeat split; auto.
  - intros Hn. rewrite length_firstn, length_map. lia.
  - intros Hj. now rewrite <- Hle, Hj.
  - intros Hj. rewrite Hle by assumption. now rewrite <- Hj.
Qed.

(** Tokens joined by single spaces are a fixed point of the title, up to
    ten tokens: the case in which title and description coincide. *)
Lemma summarize_content_joined ts :
  Forall is_token ts -> length ts <= 10 ->
  summarize_content (join (u8 " ") ts) = join (u8 " ") ts.
Proof.
  intros Hts Hn. destruct (join_space_spaced Hts) as (items & Hj & Hw & Hm).
  unfold summarize_content. rewrite Hj.
  rewrite (@split_spaced items [] eq_refl Hw : split (spaced items) = _).
  rewrite Hm, firstn_all2 by assumption. exact Hj.
Qed.

(** C8 as stated fails: a matched description of two tokens separated by
    two spaces has a title that differs from it. *)
Lemma C8_counterexample :
  extract_tweet_info ascii_only (u8 "a  b @h - http://x")
  = Some (u8 "a b — @h 🔗 (http://x)", u8 "a  b")
  /\ length (split (u8 "a  b")) = 2
  /\ summarize_content (u8 "a  b") = u8 "a b"
  /\ summarize_content (u8 "a  b") <> u8 "a  b".
Proof.
  repeat split; try (vm_compute; reflexivity).
  vm_compute. discriminate.
Qed.

Example title_of_fifteen_tokens :
  summarize_content (u8 "t1 t2 t3 t4 t5 t6 t7 t8 t9 t10 t11 t12 t13 t14 t15")
  = u8 "t1 t2 t3 t4 t5 t6 t7 t8 t9 t10".
Proof. vm_compute. reflexivity. Qed.

(** ** The keyword counter *)

Section CounterFacts.

Lemma counter_get_set wc k v k' :
  counter_get (counter_set wc k v) k'
  = if eqb_str k k' then v else counter_get wc k'.
Proof.
  induction wc as [|[k0 n] wc IH]; simpl.
  - reflexivity.
  - destruct (eqb_str k0 k) eqn:E0; simpl.
    + apply eqb_str_true in E0. subst k0.
      destruct (eqb_str k k'); reflexivity.
    + rewrite IH. destruct (eqb_str k0 k') eqn:E1; [|reflexivity].
      apply eqb_str_true in E1. subst k0. now rewrite eqb_str_sym, E0.
Qed.

Lemma counter_set_keys wc k v :
  map fst (counter_set wc k v)
  = if existsb (fun k' => eqb_str k' k) (map fst wc)
    then map fst wc else map fst wc ++ [k].
Proof.
  induction wc as [|[k0 n] wc IH]; simpl.
  - reflexivity.
  - destruct (eqb_str k0 k); simpl; [reflexivity|].
    rewrite IH. now destruct (existsb _ (map fst wc)).
Qed.

Lemma counter_set_positive wc k v :
  0 < v ->
  (forall k' n, In (k', n) wc -> 0 < n) ->
  forall k' n, In (k', n) (counter_set wc k v) -> 0 < n.
Proof.
  intros Hv. induction wc as [|[k0 m] wc IH]; simpl; intros H k' n Hin.
  - destruct Hin as [[= <- <-]|[]]. exact Hv.
  - destruct (eqb_str k0 k); simpl in Hin.
    + destruct Hin as [[= <- <-]|Hin]; [exact Hv|]. eapply H; eauto.
    + destruct Hin as [[= <- <-]|Hin]; [eapply H; eauto|].
      eapply IH; eauto.
Qed.

Lemma count_word_get wc w k :
  counter_get (count_word wc w) k
  = counter_get wc k + (if is_keyword w && eqb_str w k then 1 else 0).
Proof.
  unfold count_word, counter_incr. destruct (is_keyword w); simpl; [|lia].
  rewrite counter_get_set. destruct (eqb_str w k) eqn:E; [|lia].
  apply eqb_str_true in E. now subst.
Qed.

Lemma count_words_fold_get toks : forall wc k,
  counter_get (fold_left count_word toks wc) k
  = counter_get wc k
    + (if is_keyword k then count_occ str_eq_dec toks k else 0).
Proof.
  induction toks as [|w toks IH]; intros wc k; simpl.
  - destruct (is_keyword k); lia.
  - rewrite IH, count_word_get.
    destruct (str_eq_dec w k) as [->|Hne].
    + rewrite eqb_str_refl, andb_true_r. destruct (is_keyword k); lia.
    + apply eqb_str_false in Hne. rewrite Hne, andb_false_r.
      destruct (is_keyword k); lia.
Qed.

Lemma count_words_fold_skip toks : forall wc,
  (forall t, In t toks -> is_keyword t = false) ->
  fold_left count_word toks wc = wc.
Proof.
  induction toks as [|w toks IH]; intros wc H; simpl.
  - reflexivity.
  - unfold count_word at 2. rewrite (H w) by now left.
    apply IH. intros t Ht. apply H. now right.
Qed.

Lemma count_word_keys wc w :
  map fst (count_word wc w) = first_seen (map fst wc) w.
Proof.
  unfold count_word, first_seen, counter_incr.
  destruct (is_keyword w); simpl; [|reflexivity].
  rewrite counter_set_keys. now destruct (existsb _ _).
Qed.

(** The counter lists its keywords in the order in which they were first
    seen. *)
Lemma count_words_keys toks : forall wc,
  map fst (fold_left count_word toks wc)
  = fold_left first_seen toks (map fst wc).
Proof.
  induction toks as [|w toks IH]; intros wc; simpl.
  - reflexivity.
  - now rewrite IH, count_word_keys.
Qed.

Lemma count_word_positive wc w :
  (forall k n, In (k, n) wc -> 0 < n) ->
  forall k n, In (k, n) (count_word wc w) -> 0 < n.
Proof.
  unfold count_word, counter_incr. destruct (is_keyword w); [|auto].
  apply counter_set_positive. lia.
Qed.

Lemma count_words_positive content : forall wc,
  (forall k n, In (k, n) wc -> 0 < n) ->
  forall k n, In (k, n) (count_words wc content) -> 0 < n.
Proof.
  unfold count_words. induction (split content) as [|w toks IH]; intros wc H; simpl.
  - exact H.
  - apply IH. now apply count_word_positive.
Qed.

End CounterFacts.

Lemma state_eta s : mkState (messages s) (word_counter s) = s.
Proof. now destruct s. Qed.

Lemma update_word_counter_run content s t :
  update_word_counter content s t
  = (Ret tt, mkState (messages s) (count_words (word_counter s) content), t).
Proof. reflexivity. Qed.

(** C9: one call of the keyword accumulator raises the count of each
    vocabulary keyword by the number of whitespace-separated tokens of the
    content equal to it and leaves every other count as it was; content
    without vocabulary tokens, and empty content, change nothing; and
    ["BTC to the moon BTC"] raises the count of [BTC] by 2. *)
Theorem C9_keyword_counts (content : str) (s : state) :
  let r := run (update_word_counter content) s in
  outcome r = Ret tt
  /\ messages (final r) = messages s
  /\ (forall k,
        counter_get (word_counter (final r)) k
        = counter_get (word_counter s) k
          + (if is_keyword k then count_occ str_eq_dec (split content) k else 0))
  /\ ((forall t, In t (split content) -> is_keyword t = false) -> final r = s)
  /\ (content = [] -> final r = s)
  /\ counter_get
       (word_counter (final (run (update_word_counter (u8 "BTC to the moon BTC")) s)))
       (u8 "BTC")
     = counter_get (word_counter s) (u8 "BTC") + 2.
Proof.
  unfold run. rewrite !update_word_counter_run. cbn [outcome final fst snd].
  cbn [messages word_counter]. unfold count_words.
  repeat split.
  - intros k. apply count_words_fold_get.
  - intros H. rewrite count_words_fold_skip by assumption. apply state_eta.
  - intros ->. apply state_eta.
  - rewrite count_words_fold_get. reflexivity.
Qed.

Example update_word_counter_from_empty :
  word_counter (final (run (update_word_counter (u8 "BTC to the moon BTC")) initial))
  = [(u8 "BTC", 2)].
Proof. vm_compute. reflexivity. Qed.

Example update_word_counter_is_case_sensitive :
  word_counter (final (run (update_word_counter (u8 "btc BTC, Btc")) initial)) = [].
Proof. vm_compute. reflexivity. Qed.

(** ** [most_common] *)

Section MostCommon.

Lemma insert_desc_perm x l : Permutation (x :: l) (insert_desc x l).
Proof.
  induction l as [|y l IH]; simpl.
  - apply Permutation_refl.
  - destruct (snd y <=? snd x); [apply Permutation_refl|].
    eapply Permutation_trans; [apply perm_swap|]. now apply perm_skip.
Qed.

Lemma sorted_desc_perm l : Permutation l (sorted_desc l).
Proof.
  induction l as [|x l IH]; simpl.
  - apply perm_nil.
  - eapply Permutation_trans; [apply perm_skip, IH|]. apply insert_desc_perm.
Qed.

Lemma insert_desc_descending x l :
  descending l -> descending (insert_desc x l).
Proof.
  unfold descending. induction l as [|y l IH]; intros H; simpl.
  - repeat constructor.
  - inversion H as [|? ? Hl Hy]; subst.
    destruct (Nat.leb_spec (snd y) (snd x)) as [Hle|Hgt].
    + constructor; [assumption|]. constructor; [assumption|].
      rewrite Forall_forall in *. intros z Hz. specialize (Hy z Hz). lia.
    + constructor; [now apply IH|].
      rewrite Forall_forall in *. intros z Hz.
      apply (Permutation_in z (Permutation_sym (insert_desc_perm x l))) in Hz.
      destruct Hz as [<-|Hz]; [lia|now apply Hy].
Qed.

Lemma sorted_desc_descending l : descending (sorted_desc l).
Proof.
  induction l as [|x l IH]; simpl.
  - constructor.
  - now apply insert_desc_descending.
Qed.

(** Stability: entries with equal counts keep their order. *)
Lemma insert_desc_with_count c x l :
  with_count c (insert_desc x l) = with_count c (x :: l).
Proof.
  unfold with_count. induction l as [|y l IH]; simpl in *.
  - reflexivity.
  - destruct (Nat.leb_spec (snd y) (snd x)) as [Hle|Hgt]; simpl; [reflexivity|].
    rewrite IH.
    destruct (Nat.eqb_spec (snd x) c), (Nat.eqb_spec (snd y) c); try reflexivity; lia.
Qed.

Lemma sorted_desc_with_count c l :
  with_count c (sorted_desc l) = with_count c l.
Proof.
  induction l as [|x l IH]; simpl.
  - reflexivity.
  - rewrite insert_desc_with_count. unfold with_count in *. simpl. now rewrite IH.
Qed.

Lemma descending_split (l1 l2 : list (str * nat)) :
  descending (l1 ++ l2) ->
  descending l1 /\ forall a b, In a l1 -> In b l2 -> snd b <= snd a.
Proof.
  unfold descending. induction l1 as [|x l1 IH]; simpl; intros H.
  - split; [constructor|]. intros a b [].
  - inversion H as [|? ? Hl Hx]; subst. destruct (IH Hl) as [Hd Hab].
    split.
    + constructor; [assumption|]. rewrite Forall_forall in *.
      intros z Hz. apply Hx, in_or_app. now left.
    + intros a b [<-|Ha] Hb; [|now apply Hab].
      rewrite Forall_forall in Hx. apply Hx, in_or_app. now right.
Qed.

End MostCommon.

(** C3, as the code has it: the top-3 keyword line lists the three
    entries of the tally with the highest counts, or all entries when
    there are fewer, in descending order of count; none of the entries
    left out counts more than a listed one, and keywords with equal counts
    appear in the order in which they entered the counter, which is the
    order in which they were first seen in the period's messages.  For
    counts AI 3, BTC 3, ETH 1 the line reads AI, BTC, ETH when AI was seen
    first and BTC, AI, ETH when BTC was seen first. *)
Theorem C3_top3_descending_ties_by_first_seen (wc : Counter) :
  let top := most_common 3 wc in
  let entry := fun wn : str * nat =>
    fst wn ++ u8 " 提到 " ++ str_of_nat (snd wn) ++ u8 " 次" in
  length top = Nat.min 3 (length wc)
  /\ descending top
  /\ (exists others,
        Permutation wc (top ++ others)
        /\ (forall a b, In a top -> In b others -> snd b <= snd a)
        /\ forall c, with_count c (top ++ others) = with_count c wc)
  /\ keyword_line wc = join (u8 ", ") (map entry top)
  /\ (forall content,
        map fst (count_words wc content)
        = fold_left first_seen (split content) (map fst wc))
  /\ (let seen := count_words [] (u8 "AI BTC AI BTC ETH BTC AI") in
      seen = [(u8 "AI", 3); (u8 "BTC", 3); (u8 "ETH", 1)]
      /\ keyword_line seen = u8 "AI 提到 3 次, BTC 提到 3 次, ETH 提到 1 次")
  /\ (let seen := count_words [] (u8 "BTC AI BTC AI ETH AI BTC") in
      seen = [(u8 "BTC", 3); (u8 "AI", 3); (u8 "ETH", 1)]
      /\ keyword_line seen = u8 "BTC 提到 3 次, AI 提到 3 次, ETH 提到 1 次").
Proof.
  cbv zeta. unfold most_common.
  pose proof (sorted_desc_descending wc) as Hd.
  rewrite <- (firstn_skipn 3 (sorted_desc wc)) in Hd.
  apply descending_split in Hd as [Hd Hab].
  repeat split.
  - rewrite length_firstn.
    now rewrite <- (Permutation_length (sorted_desc_perm wc)).
  - exact Hd.
  - exists (skipn 3 (sorted_desc wc)). rewrite firstn_skipn.
    repeat split.
    + apply sorted_desc_perm.
    + exact Hab.
    + intros c. apply sorted_desc_with_count.
  - intros content. apply count_words_keys.
Qed.

(** C3 as stated fails: when [BTC] is seen before [AI] and both reach a
    count of 3, the report lists [BTC] first, although [AI] comes first in
    the vocabulary. *)
Lemma C3_counterexample :
  let inbound := [(7%Z, u8 "BTC AI up @a - http://x");
                  (7%Z, u8 "BTC beats AI @b - http://y");
                  (7%Z, u8 "ETH AI BTC @c - http://z")] in
  let wc := word_counter (handle_all 7%Z ascii_only inbound initial) in
  wc = [(u8 "BTC", 3); (u8 "AI", 3); (u8 "ETH", 1)]
  /\ index_of (u8 "AI") common_keywords < index_of (u8 "BTC") common_keywords
  /\ keyword_line wc = u8 "BTC 提到 3 次, AI 提到 3 次, ETH 提到 1 次"
  /\ ~ ties_by_vocabulary (most_common 3 wc).
Proof.
  cbv zeta. repeat split; try (vm_compute; reflexivity).
  - vm_compute. lia.
  - intros H.
    specialize (H 0 1 (u8 "BTC", 3) (u8 "AI", 3)).
    vm_compute in H. specialize (H (le_n 1) eq_refl eq_refl eq_refl). lia.
Qed.

Example top3_when_AI_is_seen_first :
  keyword_line (count_words [] (u8 "AI BTC AI BTC ETH BTC AI"))
  = u8 "AI 提到 3 次, BTC 提到 3 次, ETH 提到 1 次".
Proof. vm_compute. reflexivity. Qed.

Example top3_drops_the_fourth :
  map fst (most_common 3 [(u8 "AI", 1); (u8 "ETH", 2); (u8 "BTC", 2); (u8 "Layer2", 5)])
  = map u8 ["Layer2"; "ETH"; "BTC"]%string.
Proof. vm_compute. reflexivity. Qed.

(** ** Running the handlers *)

Section Handlers.

Variable GROUP_ID : Z.
Variable SUMMARY_CHAT_ID : Z.
Variable uni_alnum : char -> bool.

Lemma generate_summary_run w text s t :
  generate_summary w text s t
  = (Ret (ai_summary_of w text), s, t ++ [summarizer_call text]).
Proof.
  unfold generate_summary, try_except, bind, emit, lift, ret, ai_summary_of,
    completion, response_text, summarizer_call.
  destruct (ChatCompletion_create w _ _ _) as [response|e]; [|reflexivity].
  destruct (getitem response _) as [choices|e]; [|reflexivity].
  destruct (getitem0 choices) as [choice|e]; [|reflexivity].
  destruct (getitem choice _) as [message|e]; [|reflexivity].
  destruct (getitem message _) as [content|e]; [|reflexivity].
  destruct (strip_method content) as [summary|e]; reflexivity.
Qed.

(** The whole of [send_summary], case by case. *)
Lemma send_summary_run w ctx s :
  run (send_summary SUMMARY_CHAT_ID w ctx) s =
  match messages s, ctx with
  | [], None => (Raise AttributeError, s, [])
  | [], Some bot =>
      (bot SUMMARY_CHAT_ID no_messages_notice, s,
       [SendMessage SUMMARY_CHAT_ID no_messages_notice])
  | _ :: _, None => (Raise AttributeError, s, [summarizer_call (digest s)])
  | _ :: _, Some bot =>
      match bot SUMMARY_CHAT_ID (report w s) with
      | Ret _ =>
          (Ret tt, initial,
           [summarizer_call (digest s); SendMessage SUMMARY_CHAT_ID (report w s)])
      | Raise e =>
          (Raise e, s,
           [summarizer_call (digest s); SendMessage SUMMARY_CHAT_ID (report w s)])
      end
  end.
Proof.
  unfold run, send_summary, bind at 1, get_messages.
  destruct (messages s) as [|msg msgs] eqn:Hm; cbn [truthy].
  - destruct ctx as [bot|]; [|reflexivity].
    unfold send_message, bind, emit, lift. reflexivity.
  - unfold bind at 1. rewrite generate_summary_run.
    unfold bind at 1, get_word_counter.
    unfold report, digest. rewrite Hm.
    destruct ctx as [bot|]; [|reflexivity].
    unfold send_message, bind, emit, lift, set_messages, set_word_counter.
    cbn [app]. destruct (bot SUMMARY_CHAT_ID _) as [[]|e]; reflexivity.
Qed.

Lemma handle_message_run chat_id text s :
  final (run (handle_message GROUP_ID uni_alnum chat_id text) s) =
  if (chat_id =? GROUP_ID)%Z then
    match extract_tweet_info uni_alnum text with
    | Some (summary, content) =>
        mkState (messages s ++ [summary])
                (count_words (word_counter s) content)
    | None => s
    end
  else s.
Proof.
  unfold handle_message, run.
  destruct (chat_id =? GROUP_ID)%Z; [|reflexivity].
  destruct (extract_tweet_info uni_alnum text) as [[summary content]|] eqn:E;
    [|reflexivity].
  rewrite (extract_display_nonempty _ _ E). reflexivity.
Qed.

(** A period of inbound messages accumulates the display lines of the
    relevant ones and counts the keywords of their raw contents. *)
Lemma handle_all_run inbound : forall s,
  handle_all GROUP_ID uni_alnum inbound s
  = mkState (messages s ++ map fst (relevant GROUP_ID uni_alnum inbound))
      (fold_left count_words (map snd (relevant GROUP_ID uni_alnum inbound))
         (word_counter s)).
Proof.
  unfold handle_all.
  induction inbound as [|[chat_id text] inbound IH]; intros s; simpl.
  - rewrite app_nil_r. symmetry. apply state_eta.
  - rewrite IH, handle_message_run. simpl.
    destruct (chat_id =? GROUP_ID)%Z; [|reflexivity].
    destruct (extract_tweet_info uni_alnum text) as [[summary content]|];
      [|reflexivity].
    simpl. now rewrite <- app_assoc.
Qed.

Lemma handle_message_ok chat_id text s :
  accumulators_ok s ->
  accumulators_ok (final (run (handle_message GROUP_ID uni_alnum chat_id text) s)).
Proof.
  intros [Hpos Hempty]. rewrite handle_message_run.
  destruct (chat_id =? GROUP_ID)%Z; [|now split].
  destruct (extract_tweet_info uni_alnum text) as [[summary content]|];
    [|now split].
  split; simpl.
  - now apply count_words_positive.
  - intros H. destruct (messages s); discriminate.
Qed.

Lemma send_summary_ok w ctx s :
  accumulators_ok s ->
  accumulators_ok (final (run (send_summary SUMMARY_CHAT_ID w ctx) s)).
Proof.
  intros H. rewrite send_summary_run.
  destruct (messages s), ctx as [bot|]; try exact H.
  destruct (bot SUMMARY_CHAT_ID _); [|exact H].
  split; simpl; [intros k n []|reflexivity].
Qed.

Lemma reachable_ok s :
  reachable GROUP_ID SUMMARY_CHAT_ID uni_alnum s -> accumulators_ok s.
Proof.
  induction 1 as [|s [chat_id text|w ctx] _ IH].
  - split; simpl; [intros k n []|reflexivity].
  - now apply handle_message_ok.
  - now apply send_summary_ok.
Qed.

(** Whatever makes [send_summary] raise, the accumulators stay as they
    were. *)
Lemma send_summary_raise_keeps_state w ctx s e :
  outcome (run (send_summary SUMMARY_CHAT_ID w ctx) s) = Raise e ->
  final (run (send_summary SUMMARY_CHAT_ID w ctx) s) = s.
Proof.
  rewrite send_summary_run.
  destruct (messages s), ctx as [bot|]; try reflexivity.
  destruct (bot SUMMARY_CHAT_ID _); [discriminate|reflexivity].
Qed.

(** In an empty period nothing is asked of the Summarizer and nothing
    changes, whatever the transport does. *)
Lemma send_summary_empty_period w ctx s :
  messages s = [] ->
  final (run (send_summary SUMMARY_CHAT_ID w ctx) s) = s
  /\ forall model system user,
       ~ In (ChatCompletion model system user)
            (calls (run (send_summary SUMMARY_CHAT_ID w ctx) s)).
Proof.
  intros H. rewrite send_summary_run, H.
  destruct ctx as [bot|]; split; try reflexivity; simpl; intros m sy u;
    intuition discriminate.
Qed.

End Handlers.

(** ** The report run *)

(** C1: when [send_summary] runs on a non-empty digest and the dispatch of
    the report raises, the error is propagated and the messages list and
    the keyword counter are exactly what they were before the call. *)
Theorem C1_failed_dispatch_keeps_accumulators
    (SUMMARY_CHAT_ID : Z) (w : world) (bot : Bot) (s : state) (e : exn) :
  messages s <> [] ->
  bot SUMMARY_CHAT_ID (report w s) = Raise e ->
  let r := run (send_summary SUMMARY_CHAT_ID w (Some bot)) s in
  outcome r = Raise e
  /\ final r = s
  /\ calls r = [summarizer_call (digest s);
                SendMessage SUMMARY_CHAT_ID (report w s)].
Proof.
  intros Hne Hbot. cbv zeta. rewrite send_summary_run.
  destruct (messages s); [congruence|]. rewrite Hbot. auto.
Qed.

Lemma C1_witness :
  let s := mkState [u8 "Bitcoin is pumping — @cryptoguy 🔗 (https://x.com/abc)"]
                   [(u8 "BTC", 2); (u8 "AI", 1)] in
  let r := run (send_summary 9%Z (openai_says (u8 "Markets are up.")) (Some bot_down)) s in
  outcome r = Raise TelegramError /\ final r = s.
Proof.
  cbv zeta.
  pose proof (@C1_failed_dispatch_keeps_accumulators 9%Z
                (openai_says (u8 "Markets are up.")) bot_down
                (mkState [u8 "Bitcoin is pumping — @cryptoguy 🔗 (https://x.com/abc)"]
                         [(u8 "BTC", 2); (u8 "AI", 1)])
                TelegramError ltac:(discriminate) eq_refl) as H.
  cbv zeta in H. split; apply H.
Defined.

(** C2: from every state the process can be in, a [send_summary] run whose
    dispatch succeeds returns with both accumulators empty; this covers
    the empty-digest branch, where they are empty already. *)
Theorem C2_successful_report_empties_accumulators
    (GROUP_ID SUMMARY_CHAT_ID : Z) (uni_alnum : char -> bool)
    (w : world) (ctx : context) (s : state) :
  reachable GROUP_ID SUMMARY_CHAT_ID uni_alnum s ->
  let r := run (send_summary SUMMARY_CHAT_ID w ctx) s in
  outcome r = Ret tt ->
  messages (final r) = [] /\ word_counter (final r) = []
  /\ exists bot text,
       ctx = Some bot /\ bot SUMMARY_CHAT_ID text = Ret tt
       /\ In (SendMessage SUMMARY_CHAT_ID text) (calls r).
Proof.
  intros Hr. apply reachable_ok in Hr as [_ Hempty]. cbv zeta.
  rewrite send_summary_run.
  destruct (messages s) eqn:Hm, ctx as [bot|]; try discriminate.
  - simpl. intros Hbot. repeat split; auto.
    exists bot, no_messages_notice. simpl. auto.
  - destruct (bot SUMMARY_CHAT_ID (report w s)) as [[]|] eqn:Hbot; [|discriminate].
    intros _. repeat split.
    exists bot, (report w s). simpl. auto.
Qed.

(** On a non-empty digest the reset needs no assumption on the state. *)
Lemma send_summary_clears_nonempty
    (SUMMARY_CHAT_ID : Z) (w : world) (ctx : context) (s : state) :
  messages s <> [] ->
  outcome (run (send_summary SUMMARY_CHAT_ID w ctx) s) = Ret tt ->
  final (run (send_summary SUMMARY_CHAT_ID w ctx) s) = initial.
Proof.
  intros Hne. rewrite send_summary_run.
  destruct (messages s), ctx as [bot|]; try congruence; try discriminate.
  destruct (bot SUMMARY_CHAT_ID _); [reflexivity|discriminate].
Qed.

(** On the empty-digest branch nothing is cleared: the counter is empty
    on return because it was empty before.  A state with an empty messages
    list and a non-empty counter would come back unchanged, and no run of
    the process produces one. *)
Example empty_branch_clears_nothing :
  let s := mkState [] [(u8 "BTC", 1)] in
  run (send_summary 9%Z openai_down (Some bot_ok)) s
  = (Ret tt, s, [SendMessage 9%Z no_messages_notice])
  /\ ~ reachable 7%Z 9%Z ascii_only s.
Proof.
  cbv zeta. split; [reflexivity|].
  intros H. apply reachable_ok in H as [_ H]. specialize (H eq_refl). discriminate.
Qed.

Lemma C2_witness :
  let s := step 7%Z 9%Z ascii_only initial
             (Inbound 7%Z (u8 "BTC and AI and BTC @a - http://x")) in
  let r := run (send_summary 9%Z openai_down (Some bot_ok)) s in
  messages s <> [] /\ word_counter s <> [] /\ outcome r = Ret tt
  /\ messages (final r) = [] /\ word_counter (final r) = [].
Proof.
  cbv zeta.
  pose proof (@C2_successful_report_empties_accumulators 7%Z 9%Z ascii_only
                openai_down (Some bot_ok) _
                (@reach_step 7%Z 9%Z ascii_only _
                   (Inbound 7%Z (u8 "BTC and AI and BTC @a - http://x"))
                   (reach_init 7%Z 9%Z ascii_only))
                eq_refl) as (H1 & H2 & _).
  repeat split; try assumption; vm_compute; congruence.
Defined.

(** C10: in every state reachable by inbound messages and report runs,
    every keyword of the counter has a strictly positive count, and the
    counter is empty whenever the messages list is. *)
Theorem C10_counter_positive_and_empty_with_messages
    (GROUP_ID SUMMARY_CHAT_ID : Z) (uni_alnum : char -> bool) (s : state) :
  reachable GROUP_ID SUMMARY_CHAT_ID uni_alnum s ->
  (forall k n, In (k, n) (word_counter s) -> 0 < n)
  /\ (messages s = [] -> word_counter s = []).
Proof.
  induction 1 as [|s [chat_id text|w ctx] Hs IH].
  - split; simpl; [intros k n []|reflexivity].
  - apply (handle_message_ok GROUP_ID uni_alnum chat_id text IH).
  - apply (send_summary_ok SUMMARY_CHAT_ID w ctx IH).
Qed.

Lemma C10_witness :
  let s := step 7%Z 9%Z ascii_only
             (step 7%Z 9%Z ascii_only initial
                (Inbound 7%Z (u8 "BTC and AI and BTC @a - http://x")))
             (Report openai_down (Some bot_down)) in
  word_counter s = [(u8 "BTC", 2); (u8 "AI", 1)]
  /\ (forall k n, In (k, n) (word_counter s) -> 0 < n)
  /\ (messages s = [] -> word_counter s = []).
Proof.
  cbv zeta. split; [vm_compute; reflexivity|].
  apply (@C10_counter_positive_and_empty_with_messages 7%Z 9%Z ascii_only).
  apply reach_step, reach_step, reach_init.
Defined.

(** C4, as the code has it: for every non-empty accumulation period the
    text handed to the Summarizer is the rendered digest body, that is the
    display lines of the period's relevant messages, numbered from 1 in
    arrival order and joined by newlines; it is sent after the fixed
    instruction, in the only Summarizer call of the run. *)
Theorem C4_prompt_is_numbered_display_lines
    (GROUP_ID SUMMARY_CHAT_ID : Z) (uni_alnum : char -> bool)
    (w : world) (ctx : context) (inbound : list (Z * str)) :
  relevant GROUP_ID uni_alnum inbound <> [] ->
  let s := handle_all GROUP_ID uni_alnum inbound initial in
  let lines := map fst (relevant GROUP_ID uni_alnum inbound) in
  messages s = lines
  /\ exists rest,
       calls (run (send_summary SUMMARY_CHAT_ID w ctx) s)
       = ChatCompletion (u8 "gpt-4") system_prompt
           (u8 "請為以下內容生成一個 50 字內的簡短摘要：" ++ [NL]
            ++ join [NL] (numbered 0 lines)) :: rest
       /\ forall model system user, ~ In (ChatCompletion model system user) rest.
Proof.
  intros Hne. cbv zeta. rewrite handle_all_run. simpl messages.
  split; [reflexivity|].
  rewrite send_summary_run. unfold digest, summarizer_call, user_prompt. simpl messages.
  destruct (map fst (relevant GROUP_ID uni_alnum inbound)) eqn:Hl.
  - destruct (relevant GROUP_ID uni_alnum inbound); [congruence|discriminate].
  - destruct ctx as [bot|].
    + destruct (bot SUMMARY_CHAT_ID _); eexists; (split; [reflexivity|]);
        simpl; intros m sy u; intuition discriminate.
    + eexists. split; [reflexivity|]. simpl. auto.
Qed.

Lemma C4_witness :
  let inbound := [(7%Z, u8 "BTC to the moon @a - http://x");
                  (8%Z, u8 "elsewhere @b - http://y");
                  (7%Z, u8 "good morning");
                  (7%Z, u8 "ETH too @c - https://z")] in
  let r := run (send_summary 9%Z openai_down (Some bot_ok))
               (handle_all 7%Z ascii_only inbound initial) in
  exists rest,
    calls r
    = ChatCompletion (u8 "gpt-4") system_prompt
        (u8 "請為以下內容生成一個 50 字內的簡短摘要：" ++ [NL]
         ++ u8 "1. BTC to the moon — @a 🔗 (http://x)" ++ [NL]
         ++ u8 "2. ETH too — @c 🔗 (https://z)") :: rest.
Proof.
  cbv zeta.
  destruct (@C4_prompt_is_numbered_display_lines 7%Z 9%Z ascii_only
              openai_down (Some bot_ok)
              [(7%Z, u8 "BTC to the moon @a - http://x");
               (8%Z, u8 "elsewhere @b - http://y");
               (7%Z, u8 "good morning");
               (7%Z, u8 "ETH too @c - https://z")]
              ltac:(vm_compute; discriminate)) as (_ & rest & H & _).
  exists rest. exact H.
Defined.

(** C4 as stated fails: for a period with one forwarded post the text
    handed to the Summarizer is the numbered display line, not the raw
    content of the post. *)
Lemma C4_counterexample :
  let s := handle_all 7%Z ascii_only [(7%Z, tweet)] initial in
  let r := run (send_summary 9%Z openai_down (Some bot_ok)) s in
  map snd (relevant 7%Z ascii_only [(7%Z, tweet)]) = [u8 "Bitcoin is pumping"]
  /\ nth_error (calls r) 0
     = Some (summarizer_call
               (u8 "1. Bitcoin is pumping — @cryptoguy 🔗 (https://x.com/abc)"))
  /\ u8 "1. Bitcoin is pumping — @cryptoguy 🔗 (https://x.com/abc)"
     <> join [NL] (map snd (relevant 7%Z ascii_only [(7%Z, tweet)]))
  /\ ~ In (summarizer_call
             (join [NL] (map snd (relevant 7%Z ascii_only [(7%Z, tweet)]))))
          (calls r).
Proof.
  cbv zeta. repeat split; try (vm_compute; reflexivity).
  - vm_compute. discriminate.
  - vm_compute. intuition discriminate.
Qed.

(** C5, as the code has it: two [send_summary] runs in a row on an empty
    messages list, each with a bot in its context, each attempt the
    dispatch of the fixed "no messages today" notice and nothing else,
    make no Summarizer call and leave the state as it was; each run ends
    as its send does, returning when the send returns and raising what
    the send raises.  With a transport that takes the notice neither run
    raises and the second run is identical to the first. *)
Theorem C5_empty_period_is_idempotent
    (SUMMARY_CHAT_ID : Z) (w1 w2 : world) (bot1 bot2 : Bot) (s : state) :
  messages s = [] ->
  let r1 := run (send_summary SUMMARY_CHAT_ID w1 (Some bot1)) s in
  let r2 := run (send_summary SUMMARY_CHAT_ID w2 (Some bot2)) (final r1) in
  let notice := u8 "📢 今日無新訊息。" in
  r1 = (bot1 SUMMARY_CHAT_ID notice, s, [SendMessage SUMMARY_CHAT_ID notice])
  /\ r2 = (bot2 SUMMARY_CHAT_ID notice, s, [SendMessage SUMMARY_CHAT_ID notice])
  /\ (bot1 SUMMARY_CHAT_ID notice = Ret tt ->
      bot2 SUMMARY_CHAT_ID notice = Ret tt ->
      r1 = (Ret tt, s, [SendMessage SUMMARY_CHAT_ID notice]) /\ r2 = r1).
Proof.
  intros Hm. cbv zeta.
  assert (E : forall w bot,
             run (send_summary SUMMARY_CHAT_ID w (Some bot)) s
             = (bot SUMMARY_CHAT_ID (u8 "📢 今日無新訊息。"), s,
                [SendMessage SUMMARY_CHAT_ID (u8 "📢 今日無新訊息。")])).
  { intros w bot. rewrite send_summary_run, Hm. reflexivity. }
  rewrite (E w1 bot1). cbn [final fst snd]. rewrite (E w2 bot2).
  split; [reflexivity|]. split; [reflexivity|].
  intros H1 H2. now rewrite H1, H2.
Qed.

(** C5 as stated fails: in an empty period a transport that refuses the
    notice makes both runs raise. *)
Lemma C5_counterexample :
  let r1 := run (send_summary 9%Z openai_down (Some bot_down)) initial in
  let r2 := run (send_summary 9%Z openai_down (Some bot_down)) (final r1) in
  messages initial = []
  /\ r1 = (Raise TelegramError, initial, [SendMessage 9%Z no_messages_notice])
  /\ r2 = r1.
Proof. cbv zeta. repeat split. Qed.

(** In an empty period the run ends exactly as the dispatch of the notice
    does: an error can only be the transport's. *)
Lemma send_summary_empty_outcome
    (SUMMARY_CHAT_ID : Z) (w : world) (bot : Bot) (s : state) :
  messages s = [] ->
  outcome (run (send_summary SUMMARY_CHAT_ID w (Some bot)) s)
  = bot SUMMARY_CHAT_ID no_messages_notice.
Proof. intros H. rewrite send_summary_run, H. reflexivity. Qed.

Lemma C5_witness :
  let r1 := run (send_summary 9%Z openai_down (Some bot_ok)) initial in
  let r2 := run (send_summary 9%Z (openai_says (u8 "unused")) (Some bot_ok)) (final r1) in
  r1 = (Ret tt, initial, [SendMessage 9%Z (u8 "📢 今日無新訊息。")]) /\ r2 = r1.
Proof.
  cbv zeta.
  destruct (@C5_empty_period_is_idempotent 9%Z openai_down (openai_says (u8 "unused"))
              bot_ok bot_ok initial eq_refl) as (_ & _ & H).
  exact (H eq_refl eq_refl).
Defined.

Lemma summary_line_with_fallback :
  u8 "📌 AI 總結: （摘要生成失敗）" = u8 "📌 AI 總結: " ++ u8 "（摘要生成失敗）".
Proof. vm_compute. reflexivity. Qed.

(** C6: whenever the Summarizer call fails, be it the service raising or
    its answer lacking the expected fields, [generate_summary] returns the
    fixed fallback marker without raising, and [send_summary] goes on to
    compose the report, which ends with the fallback text, and to dispatch
    it; the run then ends as the dispatch does. *)
Theorem C6_summarizer_failure_yields_fallback
    (SUMMARY_CHAT_ID : Z) (w : world) (bot : Bot) (s : state) :
  (forall text e,
     completion w text = Raise e ->
     run (generate_summary w text) s
     = (Ret (u8 "（摘要生成失敗）"), s, [summarizer_call text]))
  /\ (forall e,
        messages s <> [] ->
        completion w (digest s) = Raise e ->
        let r := run (send_summary SUMMARY_CHAT_ID w (Some bot)) s in
        let text :=
          compose (today w) (digest s) (length (messages s))
            (keyword_line (word_counter s)) (u8 "（摘要生成失敗）") in
        calls r = [summarizer_call (digest s); SendMessage SUMMARY_CHAT_ID text]
        /\ outcome r = bot SUMMARY_CHAT_ID text
        /\ (exists head, text = head ++ u8 "📌 AI 總結: （摘要生成失敗）")
        /\ (bot SUMMARY_CHAT_ID text = Ret tt -> final r = initial)).
Proof.
  split.
  - intros text e H. unfold run. rewrite generate_summary_run.
    unfold ai_summary_of. now rewrite H.
  - intros e Hne H. cbv zeta. rewrite send_summary_run.
    unfold report, ai_summary_of. rewrite H. unfold fallback.
    destruct (messages s) eqn:Hm; [congruence|]. rewrite <- Hm.
    repeat split.
    + now destruct (bot SUMMARY_CHAT_ID _).
    + now destruct (bot SUMMARY_CHAT_ID _) as [[]|].
    + unfold compose. rewrite summary_line_with_fallback.
      eexists. repeat rewrite app_assoc. reflexivity.
    + intros ->. reflexivity.
Qed.

Lemma C6_witness :
  let s := mkState [u8 "gm — @bob 🔗 (http://t.co/1)"] [] in
  completion openai_down (digest s) = Raise OpenAIError
  /\ completion openai_malformed (digest s) = Raise IndexError
  /\ run (generate_summary openai_malformed (digest s)) s
     = (Ret (u8 "（摘要生成失敗）"), s, [summarizer_call (digest s)])
  /\ outcome (run (send_summary 9%Z openai_down (Some bot_ok)) s) = Ret tt
  /\ final (run (send_summary 9%Z openai_down (Some bot_ok)) s) = initial.
Proof.
  cbv zeta.
  set (s := mkState [u8 "gm — @bob 🔗 (http://t.co/1)"] []).
  destruct (@C6_summarizer_failure_yields_fallback 9%Z openai_malformed bot_ok s)
    as [Hg _].
  destruct (@C6_summarizer_failure_yields_fallback 9%Z openai_down bot_ok s)
    as [_ Hs].
  specialize (Hg (digest s) IndexError eq_refl).
  specialize (Hs OpenAIError ltac:(discriminate) eq_refl).
  cbv zeta in Hs. destruct Hs as (_ & Ho & _ & Hf).
  split; [reflexivity|]. split; [reflexivity|]. split; [exact Hg|].
  split; [rewrite Ho; reflexivity | apply Hf; reflexivity].
Defined.

Example summary_is_stripped :
  ai_summary_of (openai_says (u8 "  Markets are up. ") ) (u8 "1. gm")
  = u8 "Markets are up.".
Proof. vm_compute. reflexivity. Qed.

Example scheduled_run_without_context_raises :
  run (send_summary 9%Z openai_down None) initial
  = (Raise AttributeError, initial, []).
Proof. reflexivity. Qed.

(** * Further properties of the code *)

(** ** More on the matcher: leftmost start, shortest description *)

Section Minimality.

Variable cls : char -> bool.
Variable k : str -> option Re.matched.

(** A lazy repetition stops at the first length at which the rest of the
    pattern matches. *)
Lemma lazy_plus_minimal s : forall acc m,
  Re.lazy_plus cls k acc s = Some m ->
  exists w post r,
    s = w ++ post /\ k post = Some r /\ m = (rev acc ++ w) :: r
    /\ forall w1 w2, w = w1 ++ w2 -> w1 <> [] -> w2 <> [] ->
         k (w2 ++ post) = None.
Proof.
  induction s as [|x s IH]; intros acc m H; simpl in H; [discriminate|].
  destruct (cls x) eqn:Hx; [|discriminate].
  destruct (k s) as [r|] eqn:Hk.
  - injection H as <-. exists [x], s, r. repeat split; auto.
    intros [|a [|b w1]] w2 E H1 H2; try congruence;
      simpl in E; injection E as _ E; try discriminate; congruence.
  - apply IH in H as (w & post & r & -> & Hp & -> & Hmin).
    exists (x :: w), post, r. simpl. rewrite <- app_assoc.
    repeat split; auto.
    intros [|a w1] w2 E H1 H2; [congruence|].
    simpl in E. injection E as _ E.
    destruct w1 as [|b w1].
    + simpl in E. subst w. exact Hk.
    + apply (Hmin (b :: w1) w2 E); [discriminate|assumption].
Qed.

End Minimality.

Lemma search_nodes_leftmost ns s : forall m,
  Re.search_nodes ns s = Some m ->
  exists pre rest,
    s = pre ++ rest /\ Re.match_here ns rest = Some m
    /\ forall p1 p2, pre = p1 ++ p2 -> p2 <> [] ->
         Re.match_here ns (p2 ++ rest) = None.
Proof.
  induction s as [|x s IH]; intros m H; simpl in H.
  - destruct (Re.match_here ns []) eqn:E; [|discriminate]. injection H as <-.
    exists [], []. repeat split; auto.
    intros p1 p2 Hp Hne. destruct p1, p2; simpl in Hp; congruence.
  - destruct (Re.match_here ns (x :: s)) eqn:E.
    + injection H as <-. exists [], (x :: s). repeat split; auto.
      intros p1 p2 Hp Hne. destruct p1, p2; simpl in Hp; congruence.
    + apply IH in H as (pre & rest & -> & Hm & Hleft).
      exists (x :: pre), rest. repeat split; auto.
      intros [|a p1] p2 Hp Hne; simpl in Hp.
      * subst p2. exact E.
      * injection Hp as _ Hp. now apply (Hleft p1 p2).
Qed.

(** Two ways of cutting one string: the shorter head is a prefix of the
    longer one. *)
Lemma app_eq_shorter (a b c d : str) :
  a ++ b = c ++ d -> length c < length a ->
  exists t, t <> [] /\ a = c ++ t /\ d = t ++ b.
Proof.
  intros E Hlen. apply app_eq_app in E as [t [[-> ->]|[-> ->]]].
  - exists t. repeat split; auto. intros ->. rewrite app_nil_r in Hlen. lia.
  - rewrite length_app in Hlen. lia.
Qed.

Lemma app_eq_same_length (a b c d : str) :
  a ++ b = c ++ d -> length a = length c -> a = c /\ b = d.
Proof.
  intros E Hlen. apply app_eq_app in E as [t [[-> ->]|[-> ->]]];
    rewrite length_app in Hlen; destruct t; simpl in Hlen; try lia;
    now rewrite app_nil_r.
Qed.

Section ExtractorMore.

Variable uni_alnum : char -> bool.

Lemma tweet_tail_complete handle s url post :
  handle <> [] -> forallb (is_word uni_alnum) handle = true ->
  (s = [] \/ s = u8 "s") ->
  url <> [] -> forallb is_nonspace url = true ->
  Re.match_here (tweet_tail uni_alnum)
    (u8 " " ++ (u8 "@" ++ handle) ++ u8 " - "
     ++ (u8 "http" ++ s ++ u8 "://" ++ url) ++ post) <> None.
Proof.
  intros Hh1 Hh2 Hs Hu1 Hu2.
  pose (m := [[32]; [64]; handle; [32]; [45]; [32];
              [104]; [116]; [116]; [112]; s; [58]; [47]; [47]; url]%N).
  assert (Hf : Forall2 fits (tweet_tail uni_alnum) m).
  { cbn. repeat first [apply Forall2_cons | apply Forall2_nil]; cbn; auto. }
  pose proof (@match_here_complete _ m post Hf) as Hc.
  list_norm_in Hc. list_norm. exact Hc.
Qed.

Lemma is_word_not_newline c : is_word uni_alnum c = true -> is_dot c = true.
Proof.
  unfold is_dot. destruct (N.eqb_spec c NL) as [->|]; [|reflexivity].
  cbn. discriminate.
Qed.

Lemma is_nonspace_not_newline c : is_nonspace c = true -> is_dot c = true.
Proof.
  unfold is_dot. destruct (N.eqb_spec c NL) as [->|]; [|reflexivity].
  cbn. discriminate.
Qed.

Lemma single_line_app a b : single_line a -> single_line b -> single_line (a ++ b).
Proof. unfold single_line. intros Ha Hb. now rewrite forallb_app, Ha, Hb. Qed.

Lemma single_line_weaken (p : char -> bool) s :
  (forall c, p c = true -> is_dot c = true) ->
  forallb p s = true -> single_line s.
Proof.
  unfold single_line. intros Hp H. rewrite forallb_forall in *. auto.
Qed.

Lemma single_line_join_space ts :
  Forall is_token ts -> single_line (join (u8 " ") ts).
Proof.
  induction 1 as [|t ts [_ Ht] Hts IH]; [reflexivity|].
  assert (single_line t)
    by exact (@single_line_weaken is_nonspace t is_nonspace_not_newline Ht).
  destruct ts as [|t' ts]; [assumption|].
  change (single_line (t ++ u8 " " ++ join (u8 " ") (t' :: ts))).
  repeat apply single_line_app; auto. reflexivity.
Qed.

Lemma Forall_firstn_tokens n (ts : list str) :
  Forall is_token ts -> Forall is_token (firstn n ts).
Proof.
  intros H. revert n. induction H; intros [|n]; simpl; constructor; auto.
Qed.

Lemma summarize_content_single_line d : single_line (summarize_content d).
Proof.
  apply single_line_join_space, Forall_firstn_tokens, split_tokens.
Qed.

End ExtractorMore.

Section ExtractorShape.

Variable uni_alnum : char -> bool.

Lemma tweet_match_here_complete description handle s url post :
  description <> [] -> forallb is_dot description = true ->
  handle <> [] -> forallb (is_word uni_alnum) handle = true ->
  (s = [] \/ s = u8 "s") ->
  url <> [] -> forallb is_nonspace url = true ->
  Re.match_here (map snd (tweet_re uni_alnum))
    (description ++ u8 " " ++ (u8 "@" ++ handle) ++ u8 " - "
     ++ (u8 "http" ++ s ++ u8 "://" ++ url) ++ post) <> None.
Proof.
  intros Hd1 Hd2 Hh1 Hh2 Hs Hu1 Hu2.
  pose (m := [description; [32]; [64]; handle; [32]; [45]; [32];
              [104]; [116]; [116]; [112]; s; [58]; [47]; [47]; url]%N).
  assert (Hf : Forall2 fits (map snd (tweet_re uni_alnum)) m).
  { cbn. repeat first [apply Forall2_cons | apply Forall2_nil]; cbn; auto. }
  pose proof (@match_here_complete _ m post Hf) as Hc.
  list_norm_in Hc. list_norm. exact Hc.
Qed.

(** Everything a hit of the extractor tells about the text. *)
Lemma extract_shape text display content :
  extract_tweet_info uni_alnum text = Some (display, content) ->
  exists pre handle s url post,
    text = pre ++ content ++ u8 " " ++ (u8 "@" ++ handle) ++ u8 " - "
           ++ (u8 "http" ++ s ++ u8 "://" ++ url) ++ post
    /\ content <> [] /\ forallb is_dot content = true
    /\ handle <> [] /\ forallb (is_word uni_alnum) handle = true
    /\ (s = [] \/ s = u8 "s")
    /\ url <> [] /\ forallb is_nonspace url = true
    /\ display = summarize_content content ++ u8 " — " ++ (u8 "@" ++ handle)
                 ++ u8 " 🔗 (" ++ (u8 "http" ++ s ++ u8 "://" ++ url) ++ u8 ")".
Proof.
  unfold extract_tweet_info. intros H.
  destruct (Re.search _ text) as [m|] eqn:E; [|discriminate].
  apply search_tweet_shape in E
    as (pre & d & h & s & u & post & -> & -> & Hd1 & Hd2 & Hh1 & Hh2 & Hs & Hu1 & Hu2).
  cbn in H. repeat rewrite app_nil_r in H. injection H as <- <-.
  exists pre, h, s, u, post. repeat split; auto.
Qed.

End ExtractorShape.

(** ** Extras on [extract_tweet_info] and [summarize_content] *)

(** X1: the extractor returns a pair exactly on the texts that contain
    the pattern; the raw content is then the description of an occurrence
    of the pattern in the text, and the display line is the title of that
    description, a dash, the handle, and the link in parentheses. *)
Theorem X1_extract_hit_or_miss (uni_alnum : char -> bool) (text : str) :
  match extract_tweet_info uni_alnum text with
  | Some (display, content) =>
      exists pre handle s url post,
        text = pre ++ content ++ u8 " " ++ (u8 "@" ++ handle) ++ u8 " - "
               ++ (u8 "http" ++ s ++ u8 "://" ++ url) ++ post
        /\ content <> [] /\ forallb is_dot content = true
        /\ handle <> [] /\ forallb (is_word uni_alnum) handle = true
        /\ (s = [] \/ s = u8 "s")
        /\ url <> [] /\ forallb is_nonspace url = true
        /\ display = summarize_content content ++ u8 " — " ++ (u8 "@" ++ handle)
                     ++ u8 " 🔗 (" ++ (u8 "http" ++ s ++ u8 "://" ++ url) ++ u8 ")"
  | None => ~ matches_tweet_pattern uni_alnum text
  end.
Proof.
  destruct (extract_tweet_info uni_alnum text) as [[display content]|] eqn:E.
  - now apply extract_shape.
  - now apply extract_none_iff.
Qed.

Section GreedyEnd.

Variable cls : char -> bool.

(** A greedy repetition followed by something that always matches cannot
    fail on a character of its class, and takes the whole run. *)
Lemma greedy_plus_total (k : str -> option Re.matched) x s acc :
  (forall s', k s' <> None) -> cls x = true ->
  Re.greedy_plus cls k acc (x :: s) <> None.
Proof.
  intros Hk Hx. simpl. rewrite Hx.
  destruct (Re.greedy_plus cls k (x :: acc) s); [discriminate|].
  specialize (Hk s). destruct (k s); simpl; congruence.
Qed.

Lemma greedy_plus_maximal (k : str -> option Re.matched) s :
  (forall s', k s' <> None) ->
  forall acc m,
    Re.greedy_plus cls k acc s = Some m ->
    exists w post r,
      s = w ++ post /\ k post = Some r /\ m = (rev acc ++ w) :: r
      /\ stops_at cls post.
Proof.
  intros Hk. induction s as [|x s IH]; intros acc m H; simpl in H; [discriminate|].
  destruct (cls x) eqn:Hx; [|discriminate].
  destruct (Re.greedy_plus cls k (x :: acc) s) as [m'|] eqn:Hg.
  - injection H as <-.
    apply IH in Hg as (w & post & r & -> & Hp & -> & Hstop).
    exists (x :: w), post, r. simpl. rewrite <- app_assoc. auto.
  - destruct (k s) as [r|] eqn:Hks; [|discriminate]. injection H as <-.
    exists [x], s, r. repeat split; auto.
    destruct s as [|y s]; simpl; [exact I|].
    destruct (cls y) eqn:Hy; [|reflexivity].
    exfalso. revert Hg. now apply greedy_plus_total.
Qed.

(** A pattern that ends in a greedy repetition leaves a rest on which the
    repetition could not go on. *)
Lemma match_here_ends ns : forall s m,
  Re.match_here (ns ++ [Re.Plus true cls]) s = Some m ->
  exists post, s = concat m ++ post /\ stops_at cls post.
Proof.
  induction ns as [|n ns IH]; intros s m H.
  - change (Re.greedy_plus cls (Re.match_here []) [] s = Some m) in H.
    apply greedy_plus_maximal in H as (w & post & r & -> & Hr & -> & Hstop);
      [|discriminate].
    injection Hr as <-. exists post. simpl. now rewrite app_nil_r.
  - simpl in H. destruct n as [c|c|[|] p].
    + apply lit_sound in H as (post0 & r & -> & Hk & ->).
      apply IH in Hk as (post & -> & Hstop). now exists post.
    + destruct (Re.lit _ c s) as [m'|] eqn:Hl.
      * injection H as <-. apply lit_sound in Hl as (post0 & r & -> & Hk & ->).
        apply IH in Hk as (post & -> & Hstop). now exists post.
      * destruct (Re.match_here _ s) as [r|] eqn:Hk; simpl in H; [|discriminate].
        injection H as <-. apply IH in Hk as (post & -> & Hstop). now exists post.
    + apply greedy_plus_sound in H as (w & post0 & r & _ & _ & -> & Hk & ->).
      apply IH in Hk as (post & -> & Hstop). exists post. simpl.
      now rewrite <- app_assoc.
    + apply lazy_plus_sound in H as (w & post0 & r & _ & _ & -> & Hk & ->).
      apply IH in Hk as (post & -> & Hstop). exists post. simpl.
      now rewrite <- app_assoc.
Qed.

End GreedyEnd.

Section ExtractorOccurrence.

Variable uni_alnum : char -> bool.

Lemma tweet_nodes_split :
  map snd (tweet_re uni_alnum)
  = tweet_init uni_alnum ++ [Re.Plus true is_nonspace].
Proof. reflexivity. Qed.

(** The occurrence the extractor takes: where it lies in the text, what
    it consists of, and how the search chose it. *)
Lemma extract_occurrence text display content :
  extract_tweet_info uni_alnum text = Some (display, content) ->
  exists pre handle s url post,
    text = pre ++ content ++ u8 " " ++ (u8 "@" ++ handle) ++ u8 " - "
           ++ (u8 "http" ++ s ++ u8 "://" ++ url) ++ post
    /\ (content <> [] /\ forallb is_dot content = true
        /\ handle <> [] /\ forallb (is_word uni_alnum) handle = true
        /\ (s = [] \/ s = u8 "s")
        /\ url <> [] /\ forallb is_nonspace url = true)
    /\ stops_at is_nonspace post
    /\ display = summarize_content content ++ u8 " — " ++ (u8 "@" ++ handle)
                 ++ u8 " 🔗 (" ++ (u8 "http" ++ s ++ u8 "://" ++ url) ++ u8 ")"
    /\ (forall p1 p2, pre = p1 ++ p2 -> p2 <> [] ->
          Re.match_here (map snd (tweet_re uni_alnum))
            (p2 ++ content ++ u8 " " ++ (u8 "@" ++ handle) ++ u8 " - "
             ++ (u8 "http" ++ s ++ u8 "://" ++ url) ++ post) = None)
    /\ (forall w1 w2, content = w1 ++ w2 -> w1 <> [] -> w2 <> [] ->
          Re.match_here (tweet_tail uni_alnum)
            (w2 ++ u8 " " ++ (u8 "@" ++ handle) ++ u8 " - "
             ++ (u8 "http" ++ s ++ u8 "://" ++ url) ++ post) = None).
Proof.
  unfold extract_tweet_info, Re.search. intros H.
  destruct (Re.search_nodes _ text) as [m|] eqn:E; [|discriminate].
  apply search_nodes_leftmost in E as (pre & rest & -> & Hm & Hleft).
  pose proof Hm as Hends. rewrite tweet_nodes_split in Hends.
  apply match_here_ends in Hends as (post & Hrest & Hstop).
  pose proof Hm as Hlazy.
  change (Re.match_here (map snd (tweet_re uni_alnum)) rest)
    with (Re.lazy_plus is_dot (Re.match_here (tweet_tail uni_alnum)) [] rest)
    in Hlazy.
  apply lazy_plus_minimal in Hlazy as (w & tail & r & Hw & _ & Hmw & Hmin).
  apply match_here_sound in Hm as (Hf & _).
  revert H. cbn in Hf.
  repeat match goal with
         | H : Forall2 _ (_ :: _) _ |- _ => inversion H; clear H; subst
         | H : Forall2 _ [] _ |- _ => inversion H; clear H; subst
         end.
  cbn in * |-.
  repeat match goal with H : _ /\ _ |- _ => destruct H end. subst.
  match goal with He : _ = w :: r |- _ => injection He as ? ?; subst w r end.
  list_norm_in Hw. apply app_inv_head in Hw. subst tail.
  intros Hx. cbn in Hx. rewrite !app_nil_r in Hx. injection Hx as <- <-.
  match goal with
  | Hs : ?s = [] \/ ?s = _, Hh : forallb (is_word uni_alnum) ?h = true,
    Hu : forallb is_nonspace ?u = true |- _ =>
      exists pre, h, s, u, post
  end.
  split; [list_norm; reflexivity|].
  split; [repeat split; auto|].
  split; [exact Hstop|].
  split; [list_norm; reflexivity|].
  split.
  - intros p1 p2 Hp Hne2. specialize (Hleft p1 p2 Hp Hne2).
    list_norm_in Hleft. list_norm. exact Hleft.
  - intros w1 w2 Hc Hne1 Hne2. specialize (Hmin w1 w2 Hc Hne1 Hne2).
    list_norm_in Hmin. list_norm. exact Hmin.
Qed.

End ExtractorOccurrence.

(** X2: of all occurrences of the pattern in the text the extractor takes
    the one that starts leftmost, has the shortest description among those
    starting there, and whose link runs up to the next whitespace or the
    end of the text; the raw content is the description of that
    occurrence and the display line is built from its handle and link. *)
Theorem X2_extract_leftmost_shortest (uni_alnum : char -> bool)
    (text display content : str) :
  extract_tweet_info uni_alnum text = Some (display, content) ->
  exists pre handle s url post,
    text = pre ++ content ++ u8 " " ++ (u8 "@" ++ handle) ++ u8 " - "
           ++ (u8 "http" ++ s ++ u8 "://" ++ url) ++ post
    /\ (content <> [] /\ forallb is_dot content = true
        /\ handle <> [] /\ forallb (is_word uni_alnum) handle = true
        /\ (s = [] \/ s = u8 "s")
        /\ url <> [] /\ forallb is_nonspace url = true)
    /\ stops_at is_nonspace post
    /\ display = summarize_content content ++ u8 " — " ++ (u8 "@" ++ handle)
                 ++ u8 " 🔗 (" ++ (u8 "http" ++ s ++ u8 "://" ++ url) ++ u8 ")"
    /\ forall pre' d' h' s' u' post',
         text = pre' ++ d' ++ u8 " " ++ (u8 "@" ++ h') ++ u8 " - "
                ++ (u8 "http" ++ s' ++ u8 "://" ++ u') ++ post' ->
         d' <> [] -> forallb is_dot d' = true ->
         h' <> [] -> forallb (is_word uni_alnum) h' = true ->
         (s' = [] \/ s' = u8 "s") ->
         u' <> [] -> forallb is_nonspace u' = true ->
         length pre <= length pre'
         /\ (length pre = length pre' -> length content <= length d').
Proof.
  intros H.
  apply extract_occurrence in H
    as (pre & h & s & u & post & E & Hocc & Hstop & Hdisp & Hleft & Hmin).
  exists pre, h, s, u, post.
  split; [exact E|]. split; [exact Hocc|]. split; [exact Hstop|].
  split; [exact Hdisp|].
  intros pre' d' h' s' u' post' Ht Hd1 Hd2 Hh1 Hh2 Hs Hu1 Hu2.
  rewrite E in Ht.
  assert (Hle : length pre <= length pre').
  { destruct (Nat.le_gt_cases (length pre) (length pre')) as [|Hlt]; [assumption|].
    exfalso. destruct (app_eq_shorter _ _ _ _ Ht Hlt) as (t & Hne & Hp & Ha).
    apply (@tweet_match_here_complete uni_alnum d' h' s' u' post'); auto.
    rewrite Ha. now apply (Hleft pre' t). }
  split; [exact Hle|]. intros Hlen.
  apply app_eq_same_length in Ht as [_ Ht]; [|assumption].
  destruct (Nat.le_gt_cases (length content) (length d')) as [|Hlt]; [assumption|].
  exfalso. destruct (app_eq_shorter _ _ _ _ Ht Hlt) as (t & Hne & Hc & Ha).
  apply (@tweet_tail_complete uni_alnum h' s' u' post'); auto.
  rewrite Ha. apply (Hmin d' t); auto.
Qed.

Lemma X2_witness :
  exists pre handle s url post,
    u8 "b b @h - http://x y"
    = pre ++ u8 "b b" ++ u8 " " ++ (u8 "@" ++ handle) ++ u8 " - "
      ++ (u8 "http" ++ s ++ u8 "://" ++ url) ++ post
    /\ stops_at is_nonspace post
    /\ length pre <= 0.
Proof.
  destruct (@X2_extract_leftmost_shortest ascii_only
              (u8 "b b @h - http://x y")
              (u8 "b b — @h 🔗 (http://x)") (u8 "b b") eq_refl)
    as (pre & h & s & u & post & E & _ & Hstop & _ & Hfirst).
  exists pre, h, s, u, post. split; [exact E|]. split; [exact Hstop|].
  apply (Hfirst [] (u8 "b b") (u8 "h") [] (u8 "x") (u8 " y") eq_refl);
    first [discriminate | reflexivity | now left].
Defined.

Lemma display_single_line (uni_alnum : char -> bool) (text display content : str) :
  extract_tweet_info uni_alnum text = Some (display, content) ->
  single_line display.
Proof.
  intros H.
  apply extract_shape in H
    as (pre & h & s & u & post & _ & _ & Hc & _ & Hh & Hs & _ & Hu & ->).
  repeat apply single_line_app; try reflexivity.
  - apply summarize_content_single_line.
  - exact (@single_line_weaken _ h (is_word_not_newline uni_alnum) Hh).
  - destruct Hs as [-> | ->]; reflexivity.
  - exact (@single_line_weaken _ u is_nonspace_not_newline Hu).
Qed.

(** X3: a display line returned by the extractor is not empty and holds
    no newline character, and neither does the raw content: each stored
    message is one line of the digest. *)
Theorem X3_display_is_a_single_line (uni_alnum : char -> bool)
    (text display content : str) :
  extract_tweet_info uni_alnum text = Some (display, content) ->
  display <> [] /\ single_line display /\ single_line content.
Proof.
  intros H. pose proof (display_single_line _ _ H) as Hd.
  apply extract_shape in H
    as (pre & h & s & u & post & _ & _ & Hc & _ & _ & _ & _ & _ & ->).
  split; [|split; [exact Hd|exact Hc]].
  destruct (summarize_content content); discriminate.
Qed.

Lemma X3_witness :
  let display := u8 "Bitcoin is pumping — @cryptoguy 🔗 (https://x.com/abc)" in
  display <> [] /\ single_line display /\ single_line (u8 "Bitcoin is pumping").
Proof.
  exact (@X3_display_is_a_single_line ascii_only tweet _ _ eq_refl).
Defined.

Lemma split_join_space ts :
  Forall is_token ts -> split (join (u8 " ") ts) = ts.
Proof.
  intros H. destruct (join_space_spaced H) as (items & Hj & Hw & Hm).
  rewrite Hj, <- Hm. exact (@split_spaced items [] eq_refl Hw).
Qed.

(** X4: the title consists of the first ten tokens of the description:
    splitting it again gives exactly those tokens, so it never has more
    than ten, and taking the title of a title changes nothing. *)
Theorem X4_title_tokens (d : str) :
  split (summarize_content d) = firstn 10 (split d)
  /\ length (split (summarize_content d)) <= 10
  /\ summarize_content (summarize_content d) = summarize_content d
  /\ (split d = [] -> summarize_content d = []).
Proof.
  assert (Ht : Forall is_token (firstn 10 (split d)))
    by apply Forall_firstn_tokens, split_tokens.
  assert (Hs : split (summarize_content d) = firstn 10 (split d))
    by now apply split_join_space.
  repeat split.
  - exact Hs.
  - rewrite Hs, length_firstn. lia.
  - apply summarize_content_joined; [assumption|]. rewrite length_firstn. lia.
  - unfold summarize_content. now intros ->.
Qed.

(** ** Extras on [handle_message] and [update_word_counter] *)

Lemma handle_message_full_run (GROUP_ID : Z) (uni_alnum : char -> bool)
    chat_id text s :
  run (handle_message GROUP_ID uni_alnum chat_id text) s
  = (Ret tt, final (run (handle_message GROUP_ID uni_alnum chat_id text) s), []).
Proof.
  unfold handle_message, run.
  destruct (chat_id =? GROUP_ID)%Z; [|reflexivity].
  destruct (extract_tweet_info uni_alnum text) as [[summary content]|] eqn:E;
    [|reflexivity].
  rewrite (extract_display_nonempty _ _ E). reflexivity.
Qed.

(** X5: [handle_message] calls nothing outside.  On an update without a
    message, or whose message has no sender, it raises [AttributeError]
    before it touches anything.  On an update with a message and a sender
    it returns without raising: a message of the monitored group that
    contains the pattern appends exactly its display line to the messages
    list and counts the keywords of its raw content; any other message
    leaves the state as it was. *)
Theorem X5_handle_message_appends_on_match (GROUP_ID : Z)
    (uni_alnum : char -> bool) (update : Update) (s : state) :
  let r := run (handle_update GROUP_ID uni_alnum update) s in
  calls r = []
  /\ match upd_message update with
     | None => outcome r = Raise AttributeError /\ final r = s
     | Some m =>
         match msg_from_user m with
         | None => outcome r = Raise AttributeError /\ final r = s
         | Some _ =>
             outcome r = Ret tt
             /\ (msg_chat_id m = GROUP_ID ->
                 matches_tweet_pattern uni_alnum (msg_text m) ->
                 exists display content,
                   extract_tweet_info uni_alnum (msg_text m)
                   = Some (display, content)
                   /\ messages (final r) = messages s ++ [display]
                   /\ word_counter (final r)
                      = count_words (word_counter s) content)
             /\ (msg_chat_id m <> GROUP_ID
                 \/ ~ matches_tweet_pattern uni_alnum (msg_text m) ->
                 final r = s)
         end
     end.
Proof.
  cbv zeta. unfold handle_update.
  destruct (upd_message update) as [m|]; [|repeat split].
  destruct (msg_from_user m) as [u|]; [|repeat split].
  rewrite handle_message_full_run. cbn [outcome calls final fst snd].
  rewrite handle_message_run. repeat split.
  - intros -> Hm. rewrite Z.eqb_refl.
    destruct (extract_tweet_info uni_alnum (msg_text m)) as [[display content]|] eqn:E.
    + exists display, content. auto.
    + apply extract_none_iff in E. contradiction.
  - intros [Hc|Hm].
    + apply Z.eqb_neq in Hc. now rewrite Hc.
    + apply extract_none_iff in Hm. rewrite Hm.
      now destruct (msg_chat_id m =? GROUP_ID)%Z.
Qed.

Lemma split_go_app_space a : forall cur c b,
  is_space c = true ->
  split_go cur (a ++ c :: b) = split_go cur a ++ split b.
Proof.
  unfold split. induction a as [|x a IH]; intros cur c b Hc; simpl.
  - rewrite Hc. now destruct cur.
  - destruct (is_space x).
    + destruct cur; simpl; now rewrite IH.
    + now apply IH.
Qed.

(** X6: counting the keywords of two contents one after the other is
    counting those of the two contents put together with a whitespace
    character in between. *)
Theorem X6_update_word_counter_composes (a b : str) (c : char) (s : state) :
  is_space c = true ->
  final (run (update_word_counter b) (final (run (update_word_counter a) s)))
  = final (run (update_word_counter (a ++ c :: b)) s).
Proof.
  intros Hc. unfold run. rewrite !update_word_counter_run.
  cbn [final fst snd messages word_counter]. f_equal.
  unfold count_words, split. rewrite split_go_app_space by assumption.
  now rewrite fold_left_app.
Qed.

Lemma X6_witness :
  final (run (update_word_counter (u8 "ETH and BTC"))
           (final (run (update_word_counter (u8 "BTC up")) initial)))
  = final (run (update_word_counter (u8 "BTC up" ++ NL :: u8 "ETH and BTC")) initial).
Proof.
  exact (@X6_update_word_counter_composes (u8 "BTC up") (u8 "ETH and BTC") NL
           initial eq_refl).
Defined.

Section CounterInvariant.

Lemma is_keyword_in k : is_keyword k = true -> In k common_keywords.
Proof.
  unfold is_keyword. intros H. apply existsb_exists in H as (x & Hx & E).
  apply eqb_str_true in E. now subst.
Qed.

Lemma existsb_key_false k ks :
  existsb (fun k' => eqb_str k' k) ks = false -> ~ In k ks.
Proof.
  intros H Hin. assert (existsb (fun k' => eqb_str k' k) ks = true).
  { apply existsb_exists. exists k. split; [assumption|apply eqb_str_refl]. }
  congruence.
Qed.

Lemma count_word_wf wc w : counter_wf wc -> counter_wf (count_word wc w).
Proof.
  unfold counter_wf. intros [Hnd Hkw]. rewrite count_word_keys. unfold first_seen.
  destruct (is_keyword w) eqn:Hw; simpl; [|auto].
  destruct (existsb _ (map fst wc)) eqn:He; simpl; [auto|].
  split.
  - apply NoDup_app; [assumption|repeat constructor; intros []|].
    intros x Hx [<-|[]]. now apply existsb_key_false in He.
  - apply Forall_app. split; [assumption|]. now repeat constructor.
Qed.

Lemma count_words_wf content : forall wc,
  counter_wf wc -> counter_wf (count_words wc content).
Proof.
  unfold count_words. induction (split content) as [|w toks IH]; intros wc H; simpl.
  - exact H.
  - now apply IH, count_word_wf.
Qed.

Lemma counter_wf_get wc :
  NoDup (map fst wc) -> forall k n, In (k, n) wc -> counter_get wc k = n.
Proof.
  induction wc as [|[k0 n0] wc IH]; simpl; intros Hnd k n Hin; [contradiction|].
  inversion Hnd as [|? ? Hnotin Hnd']; subst.
  destruct Hin as [[= -> ->]|Hin].
  - now rewrite eqb_str_refl.
  - destruct (eqb_str k0 k) eqn:E; [|now apply IH].
    apply eqb_str_true in E. subst k0. exfalso. apply Hnotin.
    now apply (in_map fst) in Hin.
Qed.

Lemma reachable_counter_wf GROUP_ID SUMMARY_CHAT_ID uni_alnum s :
  reachable GROUP_ID SUMMARY_CHAT_ID uni_alnum s -> counter_wf (word_counter s).
Proof.
  induction 1 as [|s [chat_id text|w ctx] _ IH].
  - split; constructor.
  - simpl. rewrite handle_message_run.
    destruct (chat_id =? GROUP_ID)%Z; [|assumption].
    destruct (extract_tweet_info uni_alnum text) as [[summary content]|];
      [|assumption].
    now apply count_words_wf.
  - simpl. rewrite send_summary_run.
    destruct (messages s), ctx as [bot|]; try assumption.
    destruct (bot SUMMARY_CHAT_ID _); [split; constructor|assumption].
Qed.

End CounterInvariant.

(** X7: in every reachable state the keys of the counter are distinct
    keywords of the vocabulary, so there are at most six of them, and
    looking a listed keyword up gives the count listed with it. *)
Theorem X7_counter_keys_are_distinct_keywords
    (GROUP_ID SUMMARY_CHAT_ID : Z) (uni_alnum : char -> bool) (s : state) :
  reachable GROUP_ID SUMMARY_CHAT_ID uni_alnum s ->
  NoDup (map fst (word_counter s))
  /\ (forall k n, In (k, n) (word_counter s) -> In k common_keywords)
  /\ length (word_counter s) <= 6
  /\ (forall k n, In (k, n) (word_counter s) -> counter_get (word_counter s) k = n).
Proof.
  intros H. apply reachable_counter_wf in H as [Hnd Hkw].
  assert (Hin : forall k, In k (map fst (word_counter s)) -> In k common_keywords).
  { rewrite Forall_forall in Hkw. intros k Hk. now apply is_keyword_in, Hkw. }
  repeat split.
  - exact Hnd.
  - intros k n Hk. apply Hin. now apply (in_map fst) in Hk.
  - rewrite <- (length_map fst).
    change 6 with (length common_keywords).
    now apply NoDup_incl_length.
  - now apply counter_wf_get.
Qed.

Lemma X7_witness :
  let s := step 7%Z 9%Z ascii_only initial
             (Inbound 7%Z (u8 "BTC and AI and BTC @a - http://x")) in
  NoDup (map fst (word_counter s))
  /\ length (word_counter s) <= 6
  /\ counter_get (word_counter s) (u8 "BTC") = 2.
Proof.
  cbv zeta.
  destruct (@X7_counter_keys_are_distinct_keywords 7%Z 9%Z ascii_only _
              (@reach_step 7%Z 9%Z ascii_only _
                 (Inbound 7%Z (u8 "BTC and AI and BTC @a - http://x"))
                 (reach_init 7%Z 9%Z ascii_only)))
    as (H1 & _ & H3 & H4).
  split; [exact H1|]. split; [exact H3|].
  apply H4. vm_compute. auto.
Defined.

Lemma count_words_all_get cs : forall wc k,
  counter_get (fold_left count_words cs wc) k
  = counter_get wc k
    + (if is_keyword k
       then count_occ str_eq_dec (flat_map split cs) k else 0).
Proof.
  induction cs as [|c cs IH]; intros wc k; simpl.
  - destruct (is_keyword k); lia.
  - rewrite IH. unfold count_words. rewrite count_words_fold_get.
    rewrite count_occ_app. destruct (is_keyword k); lia.
Qed.

(** X8: over a period of inbound messages the messages list grows by one
    display line per relevant message, in arrival order and after what
    was there, and each vocabulary keyword's count grows by the number of
    its occurrences as a token in all the raw contents of the period. *)
Theorem X8_period_accumulates (GROUP_ID : Z) (uni_alnum : char -> bool)
    (inbound : list (Z * str)) (s : state) :
  let s' := handle_all GROUP_ID uni_alnum inbound s in
  let hits := relevant GROUP_ID uni_alnum inbound in
  messages s' = messages s ++ map fst hits
  /\ length (messages s') = length (messages s) + length hits
  /\ forall k,
       counter_get (word_counter s') k
       = counter_get (word_counter s) k
         + (if is_keyword k
            then count_occ str_eq_dec (flat_map split (map snd hits)) k
            else 0).
Proof.
  cbv zeta. rewrite handle_all_run. cbn [messages word_counter].
  repeat split.
  - now rewrite length_app, length_map.
  - intros k. apply count_words_all_get.
Qed.

(** ** Extras on [generate_summary] *)

Section Strip.

Lemma lstrip_clean s : starts_clean (lstrip s).
Proof.
  induction s as [|c s IH]; simpl; [exact I|].
  destruct (is_space c) eqn:Hc; [exact IH|exact Hc].
Qed.

Lemma lstrip_id s : starts_clean s -> lstrip s = s.
Proof. destruct s as [|c s]; simpl; [reflexivity|]. now intros ->. Qed.

Lemma lstrip_suffix s : exists ws, s = ws ++ lstrip s.
Proof.
  induction s as [|c s [ws IH]]; simpl.
  - now exists [].
  - destruct (is_space c).
    + exists (c :: ws). simpl. now rewrite <- IH.
    + now exists [].
Qed.

Lemma strip_starts_clean s : starts_clean (strip s).
Proof.
  unfold strip. pose proof (lstrip_clean s) as Ht.
  destruct (lstrip_suffix (rev (lstrip s))) as [ws E].
  apply (f_equal (@rev _)) in E. rewrite rev_involutive, rev_app_distr in E.
  destruct (rev (lstrip (rev (lstrip s)))) as [|a p]; [exact I|].
  rewrite E in Ht. exact Ht.
Qed.

(** Stripping a stripped string changes nothing. *)
Lemma strip_strip s : strip (strip s) = strip s.
Proof.
  pose proof (strip_starts_clean s) as Hc. unfold strip at 1.
  rewrite (@lstrip_id _ Hc). unfold strip. rewrite rev_involutive.
  now rewrite (@lstrip_id _ (lstrip_clean _)).
Qed.

End Strip.

(** X9: whatever the OpenAI service does, [generate_summary] returns a
    string without raising, leaves the accumulators alone and makes
    exactly one request, to the model [gpt-4] with the fixed system prompt
    and the instruction followed by the text.  The string returned is
    either the fallback marker or the content of the first choice with
    leading and trailing whitespace removed; stripping it again changes
    nothing. *)
Theorem X9_generate_summary_total (w : world) (text : str) (s : state) :
  exists summary,
    run (generate_summary w text) s
    = (Ret summary, s,
       [ChatCompletion (u8 "gpt-4") system_prompt
          (u8 "請為以下內容生成一個 50 字內的簡短摘要：" ++ [NL] ++ text)])
    /\ strip summary = summary
    /\ (summary = u8 "（摘要生成失敗）"
        \/ exists response choices choice message content,
             ChatCompletion_create w (u8 "gpt-4") system_prompt (user_prompt text)
             = Ret response
             /\ getitem response (u8 "choices") = Ret choices
             /\ getitem0 choices = Ret choice
             /\ getitem choice (u8 "message") = Ret message
             /\ getitem message (u8 "content") = Ret (PStr content)
             /\ summary = strip content).
Proof.
  exists (ai_summary_of w text). unfold run. rewrite generate_summary_run.
  split; [reflexivity|].
  unfold ai_summary_of, completion, response_text.
  destruct (ChatCompletion_create w _ _ _) as [response|e] eqn:E1;
    [|split; [reflexivity|now left]].
  destruct (getitem response _) as [choices|e] eqn:E2;
    [|split; [reflexivity|now left]].
  destruct (getitem0 choices) as [choice|e] eqn:E3;
    [|split; [reflexivity|now left]].
  destruct (getitem choice _) as [message|e] eqn:E4;
    [|split; [reflexivity|now left]].
  destruct (getitem message _) as [content|e] eqn:E5;
    [|split; [reflexivity|now left]].
  destruct content as [|z|c|l|d]; simpl; try (split; [reflexivity|now left]).
  split; [apply strip_strip|]. right.
  exists response, choices, choice, message, c.
  repeat split; first [assumption | reflexivity].
Qed.

(** ** Extras on [send_summary], [test_summary] and the scheduled job *)

(** Case analysis on membership in a concrete trace. *)
Ltac trace_cases :=
  repeat match goal with
         | H : In _ _ |- _ => progress cbn [In] in H
         | H : _ \/ _ |- _ => destruct H
         | H : False |- _ => contradiction
         | H : SendMessage _ _ = SendMessage _ _ |- _ => injection H as <- <-
         | H : ChatCompletion _ _ _ = SendMessage _ _ |- _ => discriminate
         | H : SendMessage _ _ = ?e, H' : is_completion ?e = true |- _ =>
             subst e; discriminate
         | H : ChatCompletion _ _ _ = ?e |- _ => subst e
         end.

(** X10: a report run sends at most one message, and only to the report
    destination: the notice or the composed report.  It asks the
    Summarizer exactly once when the messages list is non-empty and not at
    all when it is empty, and it does so before it sends.  A run that
    returns has sent exactly one message. *)
Theorem X10_report_run_calls (SUMMARY_CHAT_ID : Z) (w : world)
    (ctx : context) (s : state) :
  let r := run (send_summary SUMMARY_CHAT_ID w ctx) s in
  (forall chat text,
     In (SendMessage chat text) (calls r) ->
     chat = SUMMARY_CHAT_ID
     /\ text = (if truthy (messages s) then report w s else no_messages_notice))
  /\ length (filter is_send (calls r)) <= 1
  /\ filter is_completion (calls r)
     = (if truthy (messages s) then [summarizer_call (digest s)] else [])
  /\ (forall e, In e (calls r) -> is_completion e = true ->
      hd_error (calls r) = Some e)
  /\ (outcome r = Ret tt -> length (filter is_send (calls r)) = 1).
Proof.
  cbv zeta. rewrite send_summary_run.
  destruct (messages s) as [|msg msgs], ctx as [bot|]; cbn [truthy];
    try destruct (bot SUMMARY_CHAT_ID (report w s));
    unfold summarizer_call;
    cbn [calls outcome final fst snd filter is_send is_completion length hd_error];
    repeat split; intros; trace_cases; try reflexivity; try lia; try discriminate.
Qed.

(** X11: a report run either leaves both accumulators as they were or
    empties both; it changes them only when it has sent a message to the
    report destination and returns without raising. *)
Theorem X11_report_run_all_or_nothing (SUMMARY_CHAT_ID : Z) (w : world)
    (ctx : context) (s : state) :
  let r := run (send_summary SUMMARY_CHAT_ID w ctx) s in
  (final r = s \/ final r = initial)
  /\ (final r <> s ->
      outcome r = Ret tt
      /\ In (SendMessage SUMMARY_CHAT_ID (report w s)) (calls r)).
Proof.
  cbv zeta. rewrite send_summary_run.
  destruct (messages s), ctx as [bot|]; cbn; try (split; [now left|congruence]).
  destruct (bot SUMMARY_CHAT_ID _); cbn.
  - split; [now right|]. auto.
  - split; [now left|congruence].
Qed.

(** X12: a [send_summary] run whose context is [None] always raises
    [AttributeError] where it reads [context.bot]; it sends nothing and
    leaves the accumulators as they were, and when the messages list is
    non-empty it has asked the Summarizer before failing. *)
Theorem X12_report_without_context_raises (SUMMARY_CHAT_ID : Z) (w : world)
    (s : state) :
  let r := run (send_summary SUMMARY_CHAT_ID w None) s in
  outcome r = Raise AttributeError
  /\ final r = s
  /\ filter is_send (calls r) = []
  /\ calls r = (if truthy (messages s) then [summarizer_call (digest s)] else []).
Proof.
  cbv zeta. rewrite send_summary_run.
  destruct (messages s); cbn; auto.
Qed.

Lemma run_all_scheduled_only GROUP_ID SUMMARY_CHAT_ID uni_alnum history :
  forallb scheduled_only history = true ->
  forall s,
    run_all GROUP_ID SUMMARY_CHAT_ID uni_alnum history s
    = handle_all GROUP_ID uni_alnum (inbound_of history) s.
Proof.
  unfold run_all, handle_all.
  induction history as [|[chat_id text|w [bot|]] history IH]; simpl; intros H s.
  - reflexivity.
  - now apply IH.
  - discriminate.
  - rewrite IH by assumption. f_equal.
    apply (@send_summary_raise_keeps_state SUMMARY_CHAT_ID w None s AttributeError).
    rewrite send_summary_run. now destruct (messages s).
Qed.

(** X13: as long as the only report runs are the scheduler's, nothing is
    ever delivered or cleared: the state is the one the inbound messages
    alone produce, and the messages list holds every display line since
    the start. *)
Theorem X13_scheduled_reports_never_clear
    (GROUP_ID SUMMARY_CHAT_ID : Z) (uni_alnum : char -> bool)
    (history : list input) (s : state) :
  forallb scheduled_only history = true ->
  let s' := run_all GROUP_ID SUMMARY_CHAT_ID uni_alnum history s in
  s' = handle_all GROUP_ID uni_alnum (inbound_of history) s
  /\ messages s'
     = messages s ++ map fst (relevant GROUP_ID uni_alnum (inbound_of history)).
Proof.
  intros H. cbv zeta. rewrite run_all_scheduled_only by assumption.
  split; [reflexivity|]. now rewrite handle_all_run.
Qed.

Lemma X13_witness :
  let history := [Inbound 7%Z (u8 "BTC up @a - http://x");
                  Report openai_down None;
                  Inbound 7%Z (u8 "ETH too @c - https://z");
                  Report (openai_says (u8 "ok")) None] in
  messages (run_all 7%Z 9%Z ascii_only history initial)
  = [u8 "BTC up — @a 🔗 (http://x)"; u8 "ETH too — @c 🔗 (https://z)"].
Proof.
  cbv zeta.
  destruct (@X13_scheduled_reports_never_clear 7%Z 9%Z ascii_only
              [Inbound 7%Z (u8 "BTC up @a - http://x");
               Report openai_down None;
               Inbound 7%Z (u8 "ETH too @c - https://z");
               Report (openai_says (u8 "ok")) None]
              initial eq_refl) as [_ H].
  cbv zeta in H. rewrite H. vm_compute. reflexivity.
Defined.

(** X14: after a report whose dispatch raised, the next run works on the
    same data: it asks the Summarizer again for the same digest and sends
    the report composed from the unchanged accumulators; if that dispatch
    goes through, the run returns and the accumulators are empty. *)
Theorem X14_retry_after_failed_dispatch (SUMMARY_CHAT_ID : Z)
    (w1 w2 : world) (bot1 bot2 : Bot) (s : state) (e : exn) :
  messages s <> [] ->
  bot1 SUMMARY_CHAT_ID (report w1 s) = Raise e ->
  let r1 := run (send_summary SUMMARY_CHAT_ID w1 (Some bot1)) s in
  let r2 := run (send_summary SUMMARY_CHAT_ID w2 (Some bot2)) (final r1) in
  calls r2 = [summarizer_call (digest s);
              SendMessage SUMMARY_CHAT_ID (report w2 s)]
  /\ (bot2 SUMMARY_CHAT_ID (report w2 s) = Ret tt ->
      outcome r2 = Ret tt /\ final r2 = initial).
Proof.
  intros Hne H1. cbv zeta.
  assert (E : final (run (send_summary SUMMARY_CHAT_ID w1 (Some bot1)) s) = s).
  { rewrite send_summary_run. destruct (messages s); [congruence|]. now rewrite H1. }
  rewrite E, send_summary_run. destruct (messages s); [congruence|].
  split.
  - now destruct (bot2 SUMMARY_CHAT_ID _).
  - intros ->. auto.
Qed.

Lemma X14_witness :
  let s := mkState [u8 "gm — @bob 🔗 (http://t.co/1)"] [(u8 "AI", 1)] in
  let r1 := run (send_summary 9%Z openai_down (Some bot_down)) s in
  let r2 := run (send_summary 9%Z openai_down (Some bot_ok)) (final r1) in
  outcome r1 = Raise TelegramError
  /\ calls r2 = calls r1 /\ outcome r2 = Ret tt /\ final r2 = initial.
Proof.
  cbv zeta.
  destruct (@X14_retry_after_failed_dispatch 9%Z openai_down openai_down
              bot_down bot_ok
              (mkState [u8 "gm — @bob 🔗 (http://t.co/1)"] [(u8 "AI", 1)])
              TelegramError ltac:(discriminate) eq_refl) as [Hc Hr].
  destruct (Hr eq_refl) as [Ho Hf].
  split; [reflexivity|]. split; [rewrite Hc; reflexivity|]. split; assumption.
Defined.

(** X15: the manual command after a delivered report finds nothing left:
    a [test_summary] run on a non-empty messages list whose dispatch goes
    through sends the report, and the next [test_summary] run sends only
    the "no messages today" notice, without asking the Summarizer, from
    empty accumulators. *)
Theorem X15_report_then_notice (SUMMARY_CHAT_ID : Z)
    (w1 w2 : world) (bot1 bot2 : Bot) (s : state) :
  messages s <> [] ->
  bot1 SUMMARY_CHAT_ID (report w1 s) = Ret tt ->
  let r1 := run (test_summary SUMMARY_CHAT_ID w1 (Some bot1)) s in
  let r2 := run (test_summary SUMMARY_CHAT_ID w2 (Some bot2)) (final r1) in
  r1 = (Ret tt, initial,
        [summarizer_call (digest s); SendMessage SUMMARY_CHAT_ID (report w1 s)])
  /\ final r2 = initial
  /\ calls r2 = [SendMessage SUMMARY_CHAT_ID no_messages_notice]
  /\ outcome r2 = bot2 SUMMARY_CHAT_ID no_messages_notice.
Proof.
  intros Hne H1. cbv zeta. unfold test_summary.
  assert (E : run (send_summary SUMMARY_CHAT_ID w1 (Some bot1)) s
              = (Ret tt, initial,
                 [summarizer_call (digest s);
                  SendMessage SUMMARY_CHAT_ID (report w1 s)])).
  { rewrite send_summary_run. destruct (messages s); [congruence|]. now rewrite H1. }
  rewrite E. split; [reflexivity|]. cbn [final fst snd].
  rewrite send_summary_run. cbn. auto.
Qed.

Lemma X15_witness :
  let s := mkState [u8 "gm — @bob 🔗 (http://t.co/1)"] [(u8 "AI", 1)] in
  let r1 := run (test_summary 9%Z (openai_says (u8 "Quiet day.")) (Some bot_ok)) s in
  let r2 := run (test_summary 9%Z openai_down (Some bot_ok)) (final r1) in
  outcome r1 = Ret tt
  /\ r2 = (Ret tt, initial, [SendMessage 9%Z (u8 "📢 今日無新訊息。")]).
Proof.
  cbv zeta.
  destruct (@X15_report_then_notice 9%Z (openai_says (u8 "Quiet day.")) openai_down
              bot_ok bot_ok
              (mkState [u8 "gm — @bob 🔗 (http://t.co/1)"] [(u8 "AI", 1)])
              ltac:(discriminate) eq_refl) as (H1 & H2 & H3 & H4).
  split; [rewrite H1; reflexivity|].
  rewrite H1. reflexivity.
Defined.

(** ** Extras on the keyword line and the digest body *)

Lemma join_nonempty sep p rest : p <> [] -> join sep (p :: rest) <> [].
Proof. destruct p, rest; simpl; congruence. Qed.

Lemma in_firstn {A} n (l : list A) x : In x (firstn n l) -> In x l.
Proof.
  intros H. rewrite <- (firstn_skipn n l). apply in_or_app. now left.
Qed.

(** X16: the keyword line lists three entries of the counter, or all of
    them when there are fewer; each listed entry is an entry of the
    counter; and the line is empty exactly when the counter is, so a
    report on messages without keywords names none. *)
Theorem X16_keyword_line_entries (wc : Counter) :
  length (most_common 3 wc) = Nat.min 3 (length wc)
  /\ (forall x, In x (most_common 3 wc) -> In x wc)
  /\ (keyword_line wc = [] <-> wc = []).
Proof.
  unfold keyword_line, most_common.
  pose proof (Permutation_length (sorted_desc_perm wc)) as Hlen.
  repeat split.
  - rewrite length_firstn. lia.
  - intros x Hx. apply in_firstn in Hx.
    apply (Permutation_in x (Permutation_sym (sorted_desc_perm wc)) Hx).
  - intros H. destruct wc as [|e wc]; [reflexivity|]. exfalso.
    destruct (sorted_desc (e :: wc)) as [|y l]; [simpl in Hlen; discriminate|].
    revert H. cbn [firstn map]. apply join_nonempty.
    destruct y as [[|c k] n]; intros E; cbn in E; discriminate E.
  - intros ->. reflexivity.
Qed.

Section DigestLines.

Lemma digits_single_line d : single_line (digits d).
Proof. unfold single_line. induction d; simpl; auto. Qed.

Lemma numbered_single_line msgs : forall i,
  Forall single_line msgs -> Forall single_line (numbered i msgs).
Proof.
  induction msgs as [|msg msgs IH]; intros i H; simpl; [constructor|].
  inversion H; subst. constructor; [|now apply IH].
  repeat apply single_line_app;
    first [apply digits_single_line | assumption | reflexivity].
Qed.

Lemma numbered_length msgs : forall i, length (numbered i msgs) = length msgs.
Proof. induction msgs; intros i; simpl; auto. Qed.

Lemma single_line_newlines l : single_line l -> newlines l = 0.
Proof.
  unfold single_line, newlines, is_dot. induction l as [|c l IH]; simpl; [reflexivity|].
  intros H. apply andb_prop in H as [Hc Hl].
  destruct (N.eq_dec c NL) as [->|]; [discriminate|]. now apply IH.
Qed.

Lemma newlines_join ls :
  Forall single_line ls -> newlines (join [NL] ls) = length ls - 1.
Proof.
  induction 1 as [|p ls Hp Hls IH]; [reflexivity|].
  destruct ls as [|q ls].
  - simpl. now apply single_line_newlines.
  - change (join [NL] (p :: q :: ls)) with (p ++ [NL] ++ join [NL] (q :: ls)).
    pose proof (single_line_newlines Hp) as Hp0.
    unfold newlines in *. rewrite !count_occ_app.
    change (@count_occ char) with (@count_occ N).
    rewrite IH, Hp0. simpl. lia.
Qed.

Lemma send_summary_final_cases SUMMARY_CHAT_ID w ctx s :
  final (run (send_summary SUMMARY_CHAT_ID w ctx) s) = s
  \/ final (run (send_summary SUMMARY_CHAT_ID w ctx) s) = initial.
Proof.
  rewrite send_summary_run.
  destruct (messages s), ctx as [bot|]; try (now left).
  destruct (bot SUMMARY_CHAT_ID _); [now right|now left].
Qed.

Lemma reachable_single_lines GROUP_ID SUMMARY_CHAT_ID uni_alnum s :
  reachable GROUP_ID SUMMARY_CHAT_ID uni_alnum s ->
  Forall single_line (messages s).
Proof.
  induction 1 as [|s [chat_id text|w ctx] _ IH].
  - constructor.
  - simpl. rewrite handle_message_run.
    destruct (chat_id =? GROUP_ID)%Z; [|assumption].
    destruct (extract_tweet_info uni_alnum text) as [[summary content]|] eqn:E;
      [|assumption].
    simpl. apply Forall_app. split; [assumption|].
    constructor; [|constructor]. exact (display_single_line _ _ E).
  - simpl. destruct (send_summary_final_cases SUMMARY_CHAT_ID w ctx s) as [-> | ->];
      [assumption|constructor].
Qed.

End DigestLines.

(** X17: in every reachable state each stored message is a single line,
    so the digest body of [n] messages consists of exactly [n] lines: it
    holds [n - 1] newline characters. *)
Theorem X17_digest_has_one_line_per_message
    (GROUP_ID SUMMARY_CHAT_ID : Z) (uni_alnum : char -> bool) (s : state) :
  reachable GROUP_ID SUMMARY_CHAT_ID uni_alnum s ->
  Forall single_line (messages s)
  /\ newlines (digest s) = length (messages s) - 1.
Proof.
  intros H. apply reachable_single_lines in H. split; [exact H|].
  unfold digest. rewrite newlines_join by now apply numbered_single_line.
  now rewrite numbered_length.
Qed.

Lemma X17_witness :
  let s := run_all 7%Z 9%Z ascii_only
             [Inbound 7%Z (u8 "BTC up @a - http://x");
              Inbound 7%Z ([NL] ++ u8 "ETH too @c - https://z" ++ [NL] ++ u8 "bye")]
             initial in
  length (messages s) = 2 /\ newlines (digest s) = 1.
Proof.
  cbv zeta.
  destruct (@X17_digest_has_one_line_per_message 7%Z 9%Z ascii_only _
              (@reach_step 7%Z 9%Z ascii_only _
                 (Inbound 7%Z ([NL] ++ u8 "ETH too @c - https://z" ++ [NL] ++ u8 "bye"))
                 (@reach_step 7%Z 9%Z ascii_only _
                    (Inbound 7%Z (u8 "BTC up @a - http://x"))
                    (reach_init 7%Z 9%Z ascii_only)))) as [_ H].
  split; [vm_compute; reflexivity|exact H].
Defined.

Lemma numbered_nth msgs : forall i k,
  nth_error (numbered i msgs) k
  = option_map (fun msg => str_of_nat (i + k + 1) ++ u8 ". " ++ msg)
      (nth_error msgs k).
Proof.
  induction msgs as [|msg msgs IH]; intros i [|k]; simpl; try reflexivity.
  - now rewrite Nat.add_0_r.
  - rewrite IH. now replace (S i + k + 1) with (i + S k + 1) by lia.
Qed.

(** X18: the digest body numbers the messages from 1 in the order in
    which they were stored: its line [k], counted from 0, is the decimal
    [k + 1], a dot, a space and message [k]; there is one line per
    message and none beyond. *)
Theorem X18_digest_lines_are_numbered_from_one (s : state) (k : nat) :
  digest s = join [NL] (numbered 0 (messages s))
  /\ length (numbered 0 (messages s)) = length (messages s)
  /\ nth_error (numbered 0 (messages s)) k
     = option_map (fun msg => str_of_nat (k + 1) ++ u8 ". " ++ msg)
         (nth_error (messages s) k).
Proof.
  repeat split.
  - apply numbered_length.
  - apply numbered_nth.
Qed.
